(** * fireband: the NodeJS bandwidth collector (src/fireband.js)

    A shallow embedding of the collector: the five patterns and the
    anchored backtracking matcher they run on, the two message parsers,
    the row buffer with its size- and time-triggered flush, and the two
    module-level variables every collector instance shares. *)

From Stdlib Require Import ZArith Ascii String DecimalString Lia.
From Stdlib Require Import Floats.SpecFloat.
From stdpp Require Import base tactics option list.

Local Open Scope Z_scope.

(** ** JavaScript strings

    A JavaScript string is a sequence of UTF-16 code units; [length] counts
    code units.  Literals of the source are ASCII and are written through
    [js]. *)

Definition str := list N.

Definition js (s : string) : str :=
  map N_of_ascii (list_ascii_of_string s).

Fixpoint str_eqb (a b : str) : bool :=
  match a, b with
  | [], [] => true
  | x :: a', y :: b' => N.eqb x y && str_eqb a' b'
  | _, _ => false
  end.

(** Truthiness of a string value: only the empty string is falsy. *)
Definition truthy (s : str) : bool :=
  match s with [] => false | _ :: _ => true end.

(** Truthiness of a possibly [undefined] string. *)
Definition truthy_opt (o : option str) : bool :=
  match o with Some s => truthy s | None => false end.

(** ** Character classes *)

Definition is_char (a : ascii) (c : N) : bool := N.eqb c (N_of_ascii a).

(** The code unit of the double quote, and literals that contain it: in
    the argument of [jsq] an apostrophe stands for a double quote (the
    source has no apostrophe inside a pattern). *)
Definition quote : N := 34.

Definition jsq (s : string) : str :=
  map (fun c => if N.eqb c 39 then quote else c) (js s).

(** [\d] *)
Definition digit (c : N) : bool := (N.leb 48 c && N.leb c 57)%N.

(** [\w] (no [i] or [u] flag): [A-Za-z0-9_] *)
Definition word (c : N) : bool :=
  ((N.leb 65 c && N.leb c 90) || (N.leb 97 c && N.leb c 122)
   || (N.leb 48 c && N.leb c 57) || N.eqb c 95)%N.

(** Line terminators: LF, CR, U+2028, U+2029. *)
Definition line_terminator (c : N) : bool :=
  (N.eqb c 10 || N.eqb c 13 || N.eqb c 8232 || N.eqb c 8233)%N.

(** [.] (no [s] flag) *)
Definition dot (c : N) : bool := negb (line_terminator c).

(** [[^x]] *)
Definition not_char (a : ascii) (c : N) : bool := negb (is_char a c).
Definition not_quote (c : N) : bool := negb (N.eqb c quote).

(** ** Patterns

    The fragment of the pattern language the five patterns of the source
    use.  Quantifiers are greedy; [*] and [+] are applied to one-character
    atoms only. *)

Inductive regex : Type :=
| Empty
| Class (p : N -> bool)
| Cat (r1 r2 : regex)
| Alt (r1 r2 : regex)
| Star (p : N -> bool)
| Opt (r : regex)
| Group (i : nat) (r : regex).

Definition Plus (p : N -> bool) : regex := Cat (Class p) (Star p).

Fixpoint lit_codes (l : str) : regex :=
  match l with
  | [] => Empty
  | c :: l' => Cat (Class (N.eqb c)) (lit_codes l')
  end.

Definition Lit (s : string) : regex := lit_codes (js s).
Definition Litq (s : string) : regex := lit_codes (jsq s).

(** The array a successful match returns: index 0 is the matched text,
    index [i] the text of group [i], [None] standing for [undefined]. *)
Abbreviation captures := (list (option str)).

Section Matcher.
Context {R : Type}.

(** Continuation: the rest of the pattern, run on the rest of the input. *)
Definition cont := str -> captures -> option R.

(** Greedy [p*]: take one more character when possible, fall back to
    stopping here when the rest of the pattern then fails. *)
Fixpoint star (p : N -> bool) (k : cont) (s : str) (c : captures) : option R :=
  match s with
  | x :: s' =>
      if p x then
        match star p k s' c with
        | Some r => Some r
        | None => k s c
        end
      else k s c
  | [] => k s c
  end.

Fixpoint matcher (r : regex) (k : cont) (s : str) (c : captures) : option R :=
  match r with
  | Empty => k s c
  | Class p =>
      match s with
      | x :: s' => if p x then k s' c else None
      | [] => None
      end
  | Cat r1 r2 => matcher r1 (matcher r2 k) s c
  | Alt r1 r2 =>
      match matcher r1 k s c with
      | Some res => Some res
      | None => matcher r2 k s c
      end
  | Star p => star p k s c
  | Opt r1 =>
      match matcher r1 k s c with
      | Some res => Some res
      | None => k s c
      end
  | Group i r1 =>
      matcher r1 (fun s' c' => k s' (<[i := Some (take (length s - length s') s)]> c')) s c
  end.
End Matcher.

(** Number of the highest group of a pattern. *)
Fixpoint groups (r : regex) : nat :=
  match r with
  | Empty | Class _ | Star _ => 0
  | Cat r1 r2 | Alt r1 r2 => Nat.max (groups r1) (groups r2)
  | Opt r1 => groups r1
  | Group i r1 => Nat.max i (groups r1)
  end.

(** [s.match(/^r/)], for a pattern without the [g] and [m] flags that
    starts with [^]: the only start position that can succeed is 0. *)
Definition js_match (s : str) (r : regex) : option captures :=
  matcher (Group 0 r) (fun _ c => Some c) s (replicate (S (groups r)) None).

(** [details[i]] *)
Definition group (c : captures) (i : nat) : option str :=
  match c !! i with Some o => o | None => None end.

(** ** The patterns of the source *)

Definition PROTOCOL_PATH : str := js "/$protocol".
Definition DEBUG_PATH : str := js "/$debug".

(** TIME_OFFSET_REGEX (line 8): the text [event: /.info/serverTimeOffset:value:],
    then group 1: an optional minus sign and one or more digits. *)
Definition TIME_OFFSET_REGEX : regex :=
  Cat (Lit "event: /.info/serverTimeOffset:value:")
      (Group 1 (Cat (Opt (Class (is_char "-"))) (Plus digit))).

(** LOG_REGEX (line 9): [p:], one or more digits, a colon and a space,
    group 1: any run of characters other than an opening brace,
    group 2: an opening brace and any run of [.] characters. *)
Definition LOG_REGEX : regex :=
  Cat (Lit "p:") (Cat (Plus digit) (Cat (Lit ": ")
      (Cat (Group 1 (Star (not_char "{")))
           (Group 2 (Cat (Lit "{") (Star dot)))))).

(** READ_REGEX (line 10): group 1: [from server:] or [handleServerMessage],
    a space, group 2: any run of word characters. *)
Definition READ_REGEX : regex :=
  Cat (Group 1 (Alt (Lit "from server:") (Lit "handleServerMessage")))
      (Cat (Lit " ") (Group 2 (Star word))).

(** READ_PATH_REGEX (line 11): an opening brace, the key p in double
    quotes, a colon, a double quote, group 1: any run of characters other
    than a double quote, a double quote. *)
Definition READ_PATH_REGEX : regex :=
  Cat (Litq "{'p':'") (Cat (Group 1 (Star not_quote)) (Litq "'")).

(** WRITE_REGEX (line 12): the key r and one or more digits, the key a and
    group 1: one or more word characters, in double quotes, the key b and
    an opening brace, optionally group 2: the key p, a colon, a double quote
    and group 3: one or more characters other than a double quote; last a
    double quote. *)
Definition WRITE_REGEX : regex :=
  Cat (Litq "{'r':") (Cat (Plus digit) (Cat (Litq ",'a':'")
      (Cat (Group 1 (Plus word)) (Cat (Litq "','b':{")
      (Cat (Opt (Group 2 (Cat (Litq "'p':'") (Group 3 (Plus not_quote)))))
           (Litq "'")))))).

(** ** Numbers

    Integers of the source ([length]s, sizes, [Date.now()] readings, the
    parts of a date) are in [Z].  The clock offset and the time of a row
    are JavaScript numbers, that is IEEE 754 doubles: they are modelled by
    the binary64 instance (53 bits of precision, exponents up to 1024) of
    the standard library's specification of floating-point arithmetic,
    with its rounding to nearest, ties to even. *)

Definition number : Type := spec_float.

Definition NaN : number := S754_nan.

(** The number value of an integer: the double nearest to it, an infinity
    when it lies beyond the largest double.  Zero takes the sign given. *)
Definition Number (negative : bool) (z : Z) : number :=
  binary_normalize 53 1024 z 0 negative.

(** [x + y] *)
Definition add (x y : number) : number := SFadd 53 1024 x y.

(** [x / y] *)
Definition div (x y : number) : number := SFdiv 53 1024 x y.

(** [(a + b) / 1000], for an integer [a] *)
Definition add_div_1000 (a : Z) (b : number) : number :=
  div (add (Number false a) b) (Number false 1000).

(** White space and line terminators skipped by [parseInt]. *)
Definition white_space (c : N) : bool :=
  (N.eqb c 9 || N.eqb c 11 || N.eqb c 12 || N.eqb c 32 || N.eqb c 160
   || N.eqb c 5760 || (N.leb 8192 c && N.leb c 8202) || N.eqb c 8239
   || N.eqb c 8287 || N.eqb c 12288 || N.eqb c 65279
   || line_terminator c)%N.

Fixpoint skip_white (s : str) : str :=
  match s with
  | x :: s' => if white_space x then skip_white s' else s
  | [] => []
  end.

(** Value of the longest run of decimal digits at the head of [s], after
    the digits read so far ([acc]); [None] when no digit was read. *)
Fixpoint digits_value (acc : option Z) (s : str) : option Z :=
  match s with
  | x :: s' =>
      if digit x
      then digits_value (Some (10 * default 0 acc + (Z.of_N x - 48))) s'
      else acc
  | [] => acc
  end.

(** [parseInt(v, 10)]; [undefined] reads as the text [undefined].  The
    integer the digits write is turned into a number as a whole; without
    digits the answer is [NaN], and [-0] keeps its sign. *)
Definition parseInt (v : option str) : number :=
  match v with
  | None => NaN
  | Some s =>
      let s1 := skip_white s in
      let '(sign, s2) :=
        match s1 with
        | x :: s' =>
            if is_char "-" x then (-1, s')
            else if is_char "+" x then (1, s')
            else (1, s1)
        | [] => (1, s1)
        end in
      match digits_value None s2 with
      | Some n => Number (sign <? 0) (sign * n)
      | None => NaN
      end
  end.

(** Decimal text of an integer, as string concatenation renders it. *)
Definition num_to_str (z : Z) : str :=
  js (DecimalString.NilZero.string_of_int (Z.to_int z)).

(** Text of a string or [undefined] under string concatenation. *)
Definition to_str (v : option str) : str :=
  match v with Some s => s | None => js "undefined" end.

(** [v === lit] for a string or [undefined] [v]. *)
Definition is_lit (v : option str) (lit : string) : bool :=
  match v with Some s => str_eqb s (js lit) | None => false end.

(** ** Rows, options, instances and the runtime *)

Module TableRow.
Record t : Type := mk {
  op : str;
  size : Z;
  path : str;
  time : option number;
  tag : option str
}.
End TableRow.

Record Options : Type := {
  datasetId : str;
  tablePrefix : str;
  tag : option str;
  sizeFlushThreshold : Z;
  forcedFlushInterval : Z
}.

(** Thrown values. *)
Inductive Error : Type :=
| TypeError (msg : string)
| SinkError (msg : string).

(** Arguments of [console.log]. *)
Inductive value : Type :=
| VStr (s : str)
| VUndefined
| VNum (z : Z)
| VStack (e : Error)
| VErr (e : Error).

Definition of_opt (v : option str) : value :=
  match v with Some s => VStr s | None => VUndefined end.

(** An instance: [_data] refers to an array of the heap. *)
Record BandwidthCollector : Type := {
  _options : Options;
  _data : nat;
  _dataSize : Z
}.

(** What the module and its collaborators hold: the two module-level
    variables, the arrays, the console, and the calls the sink received
    (dataset, table name, the array handed over). *)
Record Runtime : Type := {
  lastFlushTimestamp : Z;
  serverTimeOffset : number;
  heap : list (list TableRow.t);
  console : list (list value);
  bigquery : list (str * str * nat)
}.

(** The module as loaded: lines 14 and 15. *)
Definition loaded : Runtime :=
  {| lastFlushTimestamp := 0; serverTimeOffset := Number false 0;
     heap := []; console := []; bigquery := [] |}.

Definition state : Type := BandwidthCollector * Runtime.

(** What a call of [flush] reads from outside: [Date.now()] at line 119,
    the UTC fields of [new Date()] at line 121, and whether [table.insert]
    throws before it returns. *)
Record UTCDate : Type := {
  getUTCFullYear : Z;
  getUTCMonth : Z;
  getUTCDate : Z
}.

Record FlushEnv : Type := {
  Date_now : Z;
  new_Date : UTCDate;
  insert_throws : option Error
}.

(** ** Statements: state passing with exceptions *)

Inductive completion (A : Type) : Type :=
| Normal (a : A)
| Throw (e : Error).
Arguments Normal {A} a.
Arguments Throw {A} e.

Definition M (A : Type) : Type := state -> completion A * state.

Definition ret {A} (a : A) : M A := fun st => (Normal a, st).
Definition throw {A} (e : Error) : M A := fun st => (Throw e, st).

Definition bind {A B} (x : M A) (f : A -> M B) : M B :=
  fun st =>
    match x st with
    | (Normal a, st') => f a st'
    | (Throw e, st') => (Throw e, st')
    end.

Notation "'let*' x ':=' c1 'in' c2" := (bind c1 (fun x => c2))
  (at level 10, x name, c1 at level 100, c2 at level 200).
Notation "c1 ';;' c2" := (bind c1 (fun _ => c2))
  (at level 100, c2 at level 200, right associativity).

(** [try { body } catch (e) { handler e }] *)
Definition try_catch {A} (body : M A) (handler : Error -> M A) : M A :=
  fun st =>
    match body st with
    | (Normal a, st') => (Normal a, st')
    | (Throw e, st') => handler e st'
    end.

Definition console_log (args : list value) : M unit :=
  fun '(this, rt) =>
    (Normal tt,
     (this,
      {| lastFlushTimestamp := lastFlushTimestamp rt;
         serverTimeOffset := serverTimeOffset rt;
         heap := heap rt;
         console := console rt ++ [args];
         bigquery := bigquery rt |})).

(** The array a reference points to. *)
Definition deref (h : list (list TableRow.t)) (r : nat) : list TableRow.t :=
  default [] (h !! r).

(** The pending rows of an instance. *)
Definition pending (st : state) : list TableRow.t :=
  deref (heap (snd st)) (_data (fst st)).

(** ** The methods of [BandwidthCollector] *)

(** [!v] for an array or [null]. *)
Definition is_null {A} (v : option A) : bool :=
  match v with Some _ => false | None => true end.

(** Line 47: group 1 is compared with a text that ends in a space. *)
Definition read_messageType (details : captures) : option str :=
  if is_lit (group details 1) "from server: " then Some [] else group details 2.

(** Line 48. *)
Definition read_size (value : str) (messageType : option str) : Z :=
  Z.of_nat (length value) + 16
  + (if truthy_opt messageType
     then 7 + Z.of_nat (length (to_str messageType)) else 0).

(** Lines 44 to 72. *)
Definition _parseReadMessage (prefix value : str) : M (option TableRow.t) :=
  match js_match prefix READ_REGEX with
  | None => ret None
  | Some details =>
      let messageType := read_messageType details in
      let row p :=
        {| TableRow.op := js "r"; TableRow.size := read_size value messageType;
           TableRow.path := p; TableRow.time := None; TableRow.tag := None |} in
      if is_lit messageType "d" || is_lit messageType "m" then
        match js_match value READ_PATH_REGEX with
        | None =>
            console_log [VStr (js "No path found in message:"); VStr prefix; VStr value];;
            ret None
        | Some pathDetails =>
            ret (Some (row (js "/" ++ to_str (group pathDetails 1))))
        end
      else if is_lit messageType "" then ret (Some (row PROTOCOL_PATH))
      else if is_lit messageType "sd" then ret (Some (row DEBUG_PATH))
      else
        console_log [VStr (js "Unknown write type:"); of_opt messageType];;
        ret None
  end.

(** Lines 74 to 103.  Line 76 reads [details[1]] and [details[3]] before
    line 77 tests [details]: on [null] the read throws. *)
Definition _parseWriteMessage (value : str) : M (option TableRow.t) :=
  let details := js_match value WRITE_REGEX in
  let* fields :=
    match details with
    | Some d => ret (group d 1, group d 3)
    | None => throw (TypeError "Cannot read property 1 of null")
    end in
  let messageType := fst fields in
  let path := snd fields in
  if is_null details then
    console_log [VStr (js "Failed to match write log:"); VStr value];;
    ret None
  else
    let row p :=
      {| TableRow.op := js "w"; TableRow.size := Z.of_nat (length value) + 16;
         TableRow.path := p; TableRow.time := None; TableRow.tag := None |} in
    if is_lit messageType "m" || is_lit messageType "p" then
      match path with
      | Some ((_ :: _) as p) => ret (Some (row p))
      | _ =>
          console_log [VStr (js "No path found in message:"); VStr value];;
          ret None
      end
    else if is_lit messageType "q" || is_lit messageType "l"
            || is_lit messageType "n" || is_lit messageType "auth"
            || is_lit messageType "s"
    then ret (Some (row PROTOCOL_PATH))
    else
      console_log [VStr (js "Unknown write type:"); of_opt messageType];;
      ret None.

(** Lines 111 to 116: the old array is returned, the instance gets a new
    empty one. *)
Definition _takeData : M nat :=
  fun '(this, rt) =>
    (Normal (_data this),
     ({| _options := _options this;
         _data := length (heap rt);
         _dataSize := 0 |},
      {| lastFlushTimestamp := lastFlushTimestamp rt;
         serverTimeOffset := serverTimeOffset rt;
         heap := heap rt ++ [[]];
         console := console rt;
         bigquery := bigquery rt |})).

(** [table.insert(rows, callback)], line 128: the sink receives the
    array; the call may throw. *)
Definition table_insert (fe : FlushEnv) (dataset tableName : str) (rows : nat) : M unit :=
  fun '(this, rt) =>
    (match insert_throws fe with Some e => Throw e | None => Normal tt end,
     (this,
      {| lastFlushTimestamp := lastFlushTimestamp rt;
         serverTimeOffset := serverTimeOffset rt;
         heap := heap rt;
         console := console rt;
         bigquery := bigquery rt ++ [(dataset, tableName, rows)] |})).

(** The callback of lines 128 to 133, run when the sink answers. *)
Definition insert_callback (error insertErrors : option Error) : M unit :=
  (match error with
   | Some e => console_log [VStr (js "Error sending bandwidth data to BigQuery:"); VErr e]
   | None => ret tt
   end);;
  match insertErrors with
  | Some e => console_log [VStr (js "Error sending bandwidth data to BigQuery:"); VErr e]
  | None => ret tt
  end.

Definition set_lastFlushTimestamp (t : Z) : M unit :=
  fun '(this, rt) =>
    (Normal tt,
     (this,
      {| lastFlushTimestamp := t;
         serverTimeOffset := serverTimeOffset rt;
         heap := heap rt;
         console := console rt;
         bigquery := bigquery rt |})).

Definition set_serverTimeOffset (n : number) : M unit :=
  fun '(this, rt) =>
    (Normal tt,
     (this,
      {| lastFlushTimestamp := lastFlushTimestamp rt;
         serverTimeOffset := n;
         heap := heap rt;
         console := console rt;
         bigquery := bigquery rt |})).

(** Name of the table of the day, lines 122 to 124. *)
Definition tableName (o : Options) (date : UTCDate) : str :=
  tablePrefix o ++ num_to_str (getUTCFullYear date)
    ++ num_to_str (getUTCMonth date + 1) ++ num_to_str (getUTCDate date).

(** Lines 118 to 134.  Line 125 only builds the handle of the table, from
    the dataset and the name. *)
Definition flush (fe : FlushEnv) : M unit :=
  set_lastFlushTimestamp (Date_now fe);;
  fun st =>
    if Nat.eqb (length (pending st)) 0 then ret tt st
    else
      let o := _options (fst st) in
      let name := tableName o (new_Date fe) in
      (let* rows := _takeData in
       (fun st' =>
          console_log [VStr (js "Flushing"); VNum (Z.of_nat (length (deref (heap (snd st')) rows)));
                       VStr (js "rows of bandwidth data to BigQuery table"); VStr name] st');;
       table_insert fe (datasetId o) name rows) st.

(** [this._data.push(row)] and [this._dataSize += row.size], lines 106
    and 107. *)
Definition push_data (row : TableRow.t) : M unit :=
  fun '(this, rt) =>
    (Normal tt,
     ({| _options := _options this;
         _data := _data this;
         _dataSize := _dataSize this + TableRow.size row |},
      {| lastFlushTimestamp := lastFlushTimestamp rt;
         serverTimeOffset := serverTimeOffset rt;
         heap := <[_data this := deref (heap rt) (_data this) ++ [row]]> (heap rt);
         console := console rt;
         bigquery := bigquery rt |})).

(** Lines 105 to 109. *)
Definition _pushRow (fe : FlushEnv) (row : TableRow.t) : M unit :=
  push_data row;;
  fun st =>
    if Z.geb (_dataSize (fst st)) (sizeFlushThreshold (_options (fst st)))
    then flush fe st
    else ret tt st.

Definition unexpected (e : Error) : M unit :=
  console_log [VStr (js "Unexpected error while collecting Firebase bandwidth:"); VStack e].

(** Lines 136 to 142; [now] is the reading of [Date.now()] at line 138. *)
Definition flushIfLate_try (now : Z) (fe : FlushEnv) : M unit :=
  fun st =>
    if Z.geb (now - lastFlushTimestamp (snd st)) (forcedFlushInterval (_options (fst st)))
    then flush fe st
    else ret tt st.

Definition flushIfLate (now : Z) (fe : FlushEnv) : M unit :=
  try_catch (flushIfLate_try now fe) unexpected.

(** Lines 36 and 37. *)
Definition stamp (now : Z) (st : state) (row : TableRow.t) : TableRow.t :=
  let row1 :=
    {| TableRow.op := TableRow.op row; TableRow.size := TableRow.size row;
       TableRow.path := TableRow.path row;
       TableRow.time := Some (add_div_1000 now (serverTimeOffset (snd st)));
       TableRow.tag := TableRow.tag row |} in
  if truthy_opt (tag (_options (fst st)))
  then {| TableRow.op := TableRow.op row1; TableRow.size := TableRow.size row1;
          TableRow.path := TableRow.path row1; TableRow.time := TableRow.time row1;
          TableRow.tag := tag (_options (fst st)) |}
  else row1.

(** Lines 27 to 38, the body of [try]; [now] is the reading of
    [Date.now()] at line 36.  Groups 1 and 2 take part in every match of
    [LOG_REGEX], so the branch for an [undefined] group is never taken. *)
Definition _collectLog_try (now : Z) (fe : FlushEnv) (message : str) : M unit :=
  match js_match message LOG_REGEX with
  | None =>
      match js_match message TIME_OFFSET_REGEX with
      | Some match_ => set_serverTimeOffset (parseInt (group match_ 1))
      | None => ret tt
      end
  | Some match_ =>
      match group match_ 1, group match_ 2 with
      | Some prefix, Some value =>
          let* row :=
            if truthy prefix then _parseReadMessage prefix value
            else _parseWriteMessage value in
          match row with
          | None => ret tt
          | Some row => fun st => _pushRow fe (stamp now st row) st
          end
      | _, _ => throw (TypeError "Cannot read property of undefined")
      end
  end.

(** Lines 25 to 42. *)
Definition _collectLog (now : Z) (fe : FlushEnv) (message : str) : M unit :=
  try_catch (_collectLog_try now fe message) unexpected.

(** The constructor, lines 17 to 23: [_takeData] gives the instance its
    first array ([_data] is [undefined] before, and what [_takeData]
    returns is dropped).  The timer of line 21 is the caller of
    [flushIfLate]. *)
Definition new_BandwidthCollector (options : Options) (rt : Runtime) : state :=
  snd (_takeData ({| _options := options; _data := 0; _dataSize := 0 |}, rt)).

(** * Notions used in the statements *)

(** ** Matches

    [Match r s c s' c']: pattern [r] can consume the head of [s] down to
    [s'], turning the captures [c] into [c'].  Every answer of the matcher
    is such a match. *)

Inductive Match : regex -> str -> captures -> str -> captures -> Prop :=
| M_Empty s c : Match Empty s c s c
| M_Class p x s c : p x = true -> Match (Class p) (x :: s) c s c
| M_Cat r1 r2 s c s1 c1 s2 c2 :
    Match r1 s c s1 c1 -> Match r2 s1 c1 s2 c2 -> Match (Cat r1 r2) s c s2 c2
| M_AltL r1 r2 s c s' c' : Match r1 s c s' c' -> Match (Alt r1 r2) s c s' c'
| M_AltR r1 r2 s c s' c' : Match r2 s c s' c' -> Match (Alt r1 r2) s c s' c'
| M_StarStop p s c : Match (Star p) s c s c
| M_StarStep p x s c s' c' :
    p x = true -> Match (Star p) s c s' c' -> Match (Star p) (x :: s) c s' c'
| M_OptTake r s c s' c' : Match r s c s' c' -> Match (Opt r) s c s' c'
| M_OptSkip r s c : Match (Opt r) s c s c
| M_Group i r s c s' c' :
    Match r s c s' c' ->
    Match (Group i r) s c s' (<[i := Some (take (length s - length s') s)]> c').

(** ** States *)

(** The state after some lines were written to the console. *)
Definition log_to (lines : list (list value)) (st : state) : state :=
  (fst st,
   {| lastFlushTimestamp := lastFlushTimestamp (snd st);
      serverTimeOffset := serverTimeOffset (snd st);
      heap := heap (snd st);
      console := console (snd st) ++ lines;
      bigquery := bigquery (snd st) |}).

(** The console line of line 127. *)
Definition flushing_line (n : nat) (name : str) : list value :=
  [VStr (js "Flushing"); VNum (Z.of_nat n);
   VStr (js "rows of bandwidth data to BigQuery table"); VStr name].

(** An instance may refer to its array. *)
Definition valid (st : state) : Prop :=
  (_data (fst st) < length (heap (snd st)))%nat.

(** The instance refers to an array of the heap, and to none the sink
    holds. *)
Definition wf (st : state) : Prop :=
  valid st
  /\ Forall (fun e => (snd e < length (heap (snd st)))%nat /\ snd e <> _data (fst st))
       (bigquery (snd st)).

(** ** The row of a line *)

(** The parser called at line 34, with what it answers. *)
Definition parsed (prefix value : str) (st : state) : completion (option TableRow.t) * state :=
  (if truthy prefix then _parseReadMessage prefix value
   else _parseWriteMessage value) st.

(** The rest of the body of [try], once a row or nothing came back from
    the parser. *)
Definition stamp_and_push (now : Z) (fe : FlushEnv) (row : option TableRow.t) : M unit :=
  match row with
  | None => ret tt
  | Some row => fun st => _pushRow fe (stamp now st row) st
  end.

(** The row line 38 passes to [_pushRow], for the lines that get there. *)
Definition classified (now : Z) (message : str) (st : state) : option TableRow.t :=
  match js_match message LOG_REGEX with
  | Some match_ =>
      match group match_ 1, group match_ 2 with
      | Some prefix, Some value =>
          match fst (parsed prefix value st) with
          | Normal (Some row) => Some (stamp now st row)
          | _ => None
          end
      | _, _ => None
      end
  | None => None
  end.

(** ** Calls, one after the other

    What reaches an instance: lines, the tick of the timer, the answer of
    the sink; and the two methods a line or a tick runs, called directly. *)

Inductive call : Type :=
| Collect (now : Z) (fe : FlushEnv) (message : str)
| Push (fe : FlushEnv) (row : TableRow.t)
| Flush (fe : FlushEnv)
| FlushIfLate (now : Z) (fe : FlushEnv)
| Callback (error insertErrors : option Error).

Definition run_call (c : call) : M unit :=
  match c with
  | Collect now fe message => _collectLog now fe message
  | Push fe row => _pushRow fe row
  | Flush fe => flush fe
  | FlushIfLate now fe => flushIfLate now fe
  | Callback error insertErrors => insert_callback error insertErrors
  end.

Fixpoint run (cs : list call) (st : state) : state :=
  match cs with
  | [] => st
  | c :: cs' => run cs' (snd (run_call c st))
  end.

(** The rows a call pushes in state [st]. *)
Definition pushed_by (c : call) (st : state) : list TableRow.t :=
  match c with
  | Collect now _ message =>
      match classified now message st with
      | Some row => [row]
      | None => []
      end
  | Push _ row => [row]
  | _ => []
  end.

(** The rows a sequence of calls pushes from state [st] on, in order. *)
Fixpoint pushed (cs : list call) (st : state) : list TableRow.t :=
  match cs with
  | [] => []
  | c :: cs' => pushed_by c st ++ pushed cs' (snd (run_call c st))
  end.

(** A call that is not a server-time-offset line. *)
Definition keeps_offset (c : call) : Prop :=
  match c with
  | Collect _ _ message => js_match message TIME_OFFSET_REGEX = None
  | _ => True
  end.

(** The rows of the arrays the sink received in [calls], in order. *)
Definition batches (h : list (list TableRow.t)) (calls : list (str * str * nat)) : list TableRow.t :=
  flat_map (fun e => deref h (snd e)) calls.

(** From [st] to [st'] the rows [rows] arrived: each is pending or in an
    array handed over since [st], in order; the arrays the sink already
    had are as they were. *)
Definition step (rows : list TableRow.t) (st st' : state) : Prop :=
  wf st'
  /\ (exists later,
        bigquery (snd st') = bigquery (snd st) ++ later
        /\ batches (heap (snd st')) later ++ pending st' = pending st ++ rows)
  /\ forall e, e ∈ bigquery (snd st) ->
       deref (heap (snd st')) (snd e) = deref (heap (snd st)) (snd e).

(** ** Data for the examples *)

Definition ex_options : Options :=
  {| datasetId := js "bandwidth"; tablePrefix := js "raw"; tag := Some (js "web");
     sizeFlushThreshold := 100; forcedFlushInterval := 60000 |}.

Definition ex_date : UTCDate :=
  {| getUTCFullYear := 2016; getUTCMonth := 0; getUTCDate := 9 |}.

Definition ex_env (now : Z) : FlushEnv :=
  {| Date_now := now; new_Date := ex_date; insert_throws := None |}.

Definition ex_env_throwing (now : Z) : FlushEnv :=
  {| Date_now := now; new_Date := ex_date;
     insert_throws := Some (SinkError "insert failed") |}.

Definition ex_row (n : Z) : TableRow.t :=
  {| TableRow.op := js "r"; TableRow.size := n; TableRow.path := js "/users";
     TableRow.time := Some (Number false 1); TableRow.tag := None |}.

(** One instance, just constructed. *)
Definition ex_fresh : state := new_BandwidthCollector ex_options loaded.

(** Two instances of one module: [ex_a] and [ex_b] with the runtime
    [ex_shared] they share, in which [ex_b] holds one row. *)
Definition ex_a : BandwidthCollector := fst ex_fresh.
Definition ex_b_state : state :=
  snd (_pushRow (ex_env 500) (ex_row 40)
         (new_BandwidthCollector ex_options (snd ex_fresh))).
Definition ex_b : BandwidthCollector := fst ex_b_state.
Definition ex_shared : Runtime := snd ex_b_state.

(** An instance with two rows pending, and calls that follow its flush:
    the threshold is reached at the second of the three rows. *)
Definition ex_pending : state :=
  snd (_pushRow (ex_env 600) (ex_row 41) ex_b_state).

Definition ex_read_line : str :=
  jsq "p:3: handleServerMessage d {'p':'users/42','d':7}".

Definition ex_calls : list call :=
  [Push (ex_env 900) (ex_row 60); FlushIfLate 950 (ex_env 950);
   Collect 1000 (ex_env 1000) ex_read_line;
   Callback (Some (SinkError "quota")) None;
   Push (ex_env 1100) (ex_row 62)].

(** An instance whose module has the clock offset 5, and calls that are
    not server-time-offset lines. *)
Definition ex_offset_5 : state :=
  snd (_collectLog 10 (ex_env 10) (js "event: /.info/serverTimeOffset:value:5") ex_fresh).

Definition ex_offset_line : str := js "event: /.info/serverTimeOffset:value:-42".

Definition ex_between : list call :=
  [Collect 6000 (ex_env 6000) (jsq "p:2: {'r':1,'a':'q','b':{'p':'/users','h':''}}");
   FlushIfLate 6200 (ex_env 6200);
   Collect 6500 (ex_env 6500) (js "c:0:1 reconnecting")].

(** ** More notions: sums, input shapes, the exported function *)

(** The sum of the sizes of some rows. *)
Definition sum_sizes (rows : list TableRow.t) : Z :=
  fold_right (fun row acc => TableRow.size row + acc) 0 rows.

(** The arrays the sink holds. *)
Definition handed (rt : Runtime) : list nat := map snd (bigquery rt).

(** The input stops the run of a class: it is empty or its first code
    unit is outside the class. *)
Definition stops (p : N -> bool) (s : str) : Prop :=
  match s with
  | [] => True
  | x :: _ => p x = false
  end.

(** A line of the log: the packet counter, the prefix segment, the payload
    segment, and what follows the first line. *)
Definition log_line (counter prefix payload tail : str) : str :=
  js "p:" ++ counter ++ js ": " ++ prefix ++ payload ++ tail.

(** The prefix of a message the client handled, with its type. *)
Definition handled (code : str) : str :=
  js "handleServerMessage " ++ code ++ js " ".

(** The payload of a request: its number, its action, and the body from
    after the opening brace on. *)
Definition request (number action body : str) : str :=
  jsq "{'r':" ++ number ++ jsq ",'a':'" ++ action ++ jsq "','b':{" ++ body.

(** The running size is the sum of the sizes of the pending rows, in an
    instance that refers to an array of the heap. *)
Definition size_inv (st : state) : Prop :=
  valid st /\ _dataSize (fst st) = sum_sizes (pending st).

(** ** Numbers that are integers, and what the specification words

    The integer a number is, when it is one. *)
Definition to_Z (x : number) : option Z :=
  match x with
  | S754_zero _ => Some 0
  | S754_finite s m e =>
      let v :=
        match e with
        | Z0 => Some (Zpos m)
        | Zpos _ => Some (Zpos m * 2 ^ e)
        | Zneg _ =>
            if Zpos m mod 2 ^ (- e) =? 0 then Some (Zpos m / 2 ^ (- e)) else None
        end in
      (fun z => if s then - z else z) <$> v
  | _ => None
  end.

(** The double of a positive integer below 2^53, with the sign [s]: the
    integer itself, shifted to 53 digits. *)
Definition canon (s : bool) (p : positive) : number :=
  let d := Zpos (digits2_pos p) in
  match 53 - d with
  | Zpos k => S754_finite s (Pos.iter xO p k) (d - 53)
  | _ => S754_finite s p 0
  end.

(** The integer that decimal digits after an optional minus sign write,
    and whether the sign is there. *)
Definition signed_decimal (text : option str) : option (bool * Z) :=
  match text with
  | Some (c :: ds) =>
      if is_char "-" c
      then (fun v => (true, - v)) <$> digits_value None ds
      else (fun v => (false, v)) <$> digits_value None (c :: ds)
  | _ => None
  end.

(** The readings of [Date.now()]: time values, at most 8.64e15 in
    magnitude. *)
Definition time_value (now : Z) : Prop := Z.abs now <= 8640000000000000.

(** The message type in the words of the specification: the empty string
    for the origin [from server:], else the captured code. *)
Definition spec_messageType (details : captures) : option str :=
  if is_lit (group details 1) "from server:" then Some [] else group details 2.

(** The size of a read event in the words of the specification: the length
    of the payload segment plus 16, plus 7 and the length of the message
    type when that is not empty. *)
Definition spec_read_size (value : str) (details : captures) : Z :=
  Z.of_nat (length value) + 16
  + match spec_messageType details with
    | Some ((_ :: _) as messageType) => 7 + Z.of_nat (length messageType)
    | _ => 0
    end.

(** An offset line whose integer is 2^53 + 1, and one of 400 digits. *)
Definition ex_offset_odd : str :=
  js "event: /.info/serverTimeOffset:value:9007199254740993".

Definition ex_offset_huge : str :=
  js "event: /.info/serverTimeOffset:value:" ++ repeat 57%N 400.

(** ** The exported function

    The options as the caller gives them: a property that is missing is
    [None]. *)
Module Given.
Record t : Type := {
  projectId : str;
  datasetId : str;
  tablePrefix : option str;
  keyFilename : option str;
  key : option str;
  tag : option str;
  sizeFlushThreshold : option Z;
  forcedFlushInterval : option Z
}.
End Given.

(** What [gcloud] is called with; [J] is what [JSON.parse] returns. *)
Record GcloudOptions (J : Type) : Type := {
  g_projectId : str;
  g_keyFilename : option str;
  g_credentials : option J
}.
Arguments g_projectId {J} _.
Arguments g_keyFilename {J} _.
Arguments g_credentials {J} _.

(** [ms('1m')], in milliseconds. *)
Definition ms_1m : Z := 60000.

(** [a || b] on a string that may be missing: the empty string is falsy. *)
Definition or_str (a : option str) (b : str) : str :=
  match a with
  | Some ((_ :: _) as s) => s
  | _ => b
  end.

(** [a || b] on a number that may be missing: zero is falsy. *)
Definition or_num (a : option Z) (b : Z) : Z :=
  match a with
  | Some 0 | None => b
  | Some z => z
  end.

(** Lines 161 to 173.  [JSON_parse] is [JSON.parse] applied to
    [options.key], which throws on what is not JSON; [gcloud] gets the
    options returned here first. *)
Definition module_exports {J : Type} (JSON_parse : option str -> completion J)
    (options : Given.t) (rt : Runtime) : completion (GcloudOptions J * state) :=
  let gcloudOptions :=
    if truthy_opt (Given.keyFilename options)
    then Normal {| g_projectId := Given.projectId options;
                   g_keyFilename := Given.keyFilename options;
                   g_credentials := None |}
    else
      match JSON_parse (Given.key options) with
      | Normal credentials =>
          Normal {| g_projectId := Given.projectId options;
                    g_keyFilename := None;
                    g_credentials := Some credentials |}
      | Throw e => Throw e
      end in
  match gcloudOptions with
  | Throw e => Throw e
  | Normal gcloudOptions =>
      Normal
        (gcloudOptions,
         new_BandwidthCollector
           {| datasetId := Given.datasetId options;
              tablePrefix := or_str (Given.tablePrefix options) (js "raw");
              tag := Given.tag options;
              sizeFlushThreshold := or_num (Given.sizeFlushThreshold options) 100000;
              forcedFlushInterval := or_num (Given.forcedFlushInterval options) ms_1m |}
           rt)
  end.

(** What [JSON.parse] does in the examples: only the empty object is
    JSON, and the value thrown on anything else stands for its syntax
    error. *)
Definition ex_JSON_parse (text : option str) : completion unit :=
  match text with
  | Some [123%N; 125%N] => Normal tt
  | _ => Throw (TypeError "Unexpected token")
  end.

Definition ex_given : Given.t :=
  {| Given.projectId := js "project"; Given.datasetId := js "bandwidth";
     Given.tablePrefix := None; Given.keyFilename := Some (js "key.json");
     Given.key := None; Given.tag := None;
     Given.sizeFlushThreshold := Some 0; Given.forcedFlushInterval := None |}.

Definition ex_given_key (key : str) : Given.t :=
  {| Given.projectId := js "project"; Given.datasetId := js "bandwidth";
     Given.tablePrefix := Some (js "bw"); Given.keyFilename := Some [];
     Given.key := Some key; Given.tag := Some (js "web");
     Given.sizeFlushThreshold := Some 100; Given.forcedFlushInterval := Some 5000 |}.

(** * Properties *)

(** ** What a successful match says about the input *)

Lemma star_sound {R} p (k : @cont R) s c res :
  star p k s c = Some res ->
  exists s', Match (Star p) s c s' c /\ k s' c = Some res.
Proof.
  induction s as [|x s IH]; simpl; intros H.
  - exists []. split; [constructor | exact H].
  - destruct (p x) eqn:Hp.
    + destruct (star p k s c) as [res'|] eqn:Hs.
      * inversion H; subst res'. destruct (IH eq_refl) as (s' & HM & Hk).
        exists s'. split; [by constructor | exact Hk].
      * exists (x :: s). split; [constructor | exact H].
    + exists (x :: s). split; [constructor | exact H].
Qed.

Lemma matcher_sound {R} r : forall (k : @cont R) s c res,
  matcher r k s c = Some res ->
  exists s' c', Match r s c s' c' /\ k s' c' = Some res.
Proof.
  induction r as [|p|r1 IH1 r2 IH2|r1 IH1 r2 IH2|p|r IH|i r IH];
    simpl; intros k s c res H.
  - exists s, c. split; [constructor | exact H].
  - destruct s as [|x s]; [discriminate|].
    destruct (p x) eqn:Hp; [|discriminate].
    exists s, c. split; [by constructor | exact H].
  - destruct (IH1 _ _ _ _ H) as (s1 & c1 & HM1 & H1).
    destruct (IH2 _ _ _ _ H1) as (s2 & c2 & HM2 & H2).
    exists s2, c2. split; [econstructor; eassumption | exact H2].
  - destruct (matcher r1 k s c) as [res'|] eqn:H1.
    + inversion H; subst res'.
      destruct (IH1 _ _ _ _ H1) as (s' & c' & HM & Hk).
      exists s', c'. split; [by apply M_AltL | exact Hk].
    + destruct (IH2 _ _ _ _ H) as (s' & c' & HM & Hk).
      exists s', c'. split; [by apply M_AltR | exact Hk].
  - destruct (star_sound _ _ _ _ _ H) as (s' & HM & Hk).
    exists s', c. split; assumption.
  - destruct (matcher r k s c) as [res'|] eqn:H1.
    + inversion H; subst res'.
      destruct (IH _ _ _ _ H1) as (s' & c' & HM & Hk).
      exists s', c'. split; [by apply M_OptTake | exact Hk].
    + exists s, c. split; [apply M_OptSkip | exact H].
  - destruct (IH _ _ _ _ H) as (s' & c' & HM & Hk).
    exists s', (<[i := Some (take (length s - length s') s)]> c').
    split; [by constructor | exact Hk].
Qed.

(** A match consumes a head of the input and keeps the number of slots. *)
Lemma Match_consumes r s c s' c' :
  Match r s c s' c' -> exists u, s = u ++ s' /\ length c' = length c.
Proof.
  induction 1.
  - by exists [].
  - by exists [x].
  - destruct IHMatch1 as (u1 & -> & E1), IHMatch2 as (u2 & -> & E2).
    exists (u1 ++ u2). split; [by rewrite app_assoc | congruence].
  - assumption.
  - assumption.
  - by exists [].
  - destruct IHMatch as (u & -> & E). by exists (x :: u).
  - assumption.
  - by exists [].
  - destruct IHMatch as (u & -> & E). exists u.
    split; [done | by rewrite length_insert].
Qed.

Lemma take_consumed (u s' : str) : take (length (u ++ s') - length s') (u ++ s') = u.
Proof.
  rewrite length_app, Nat.add_sub. by rewrite take_app_length.
Qed.

(** Inversion, one pattern former at a time. *)
Lemma Match_lit l s c s' c' :
  Match (lit_codes l) s c s' c' -> s = l ++ s' /\ c' = c.
Proof.
  revert s c. induction l as [|x l IH]; simpl; intros s c H.
  - by inversion H.
  - inversion H as [| |? ? ? ? s1 c1 ? ? H1 H2| | | | | | |]; subst.
    inversion H1; subst. apply IH in H2 as [-> ->].
    match goal with E : N.eqb _ _ = true |- _ => apply N.eqb_eq in E as <- end.
    done.
Qed.

Lemma Match_star p s c s' c' :
  Match (Star p) s c s' c' ->
  exists u, s = u ++ s' /\ forallb p u = true /\ c' = c.
Proof.
  remember (Star p) as r eqn:Er. induction 1; inversion Er; subst.
  - by exists [].
  - destruct (IHMatch eq_refl) as (u & -> & Hu & ->).
    exists (x :: u). simpl. by rewrite H, Hu.
Qed.

Lemma Match_class p s c s' c' :
  Match (Class p) s c s' c' -> exists x, s = x :: s' /\ p x = true /\ c' = c.
Proof. inversion 1; subst. by eexists. Qed.

Lemma Match_cat r1 r2 s c s2 c2 :
  Match (Cat r1 r2) s c s2 c2 ->
  exists s1 c1, Match r1 s c s1 c1 /\ Match r2 s1 c1 s2 c2.
Proof. inversion 1; subst. eauto. Qed.

Lemma Match_group i r s c s' c2 :
  Match (Group i r) s c s' c2 ->
  exists u c', Match r s c s' c' /\ s = u ++ s' /\ length c' = length c
               /\ c2 = <[i := Some u]> c'.
Proof.
  inversion 1 as [| | | | | | | | |? ? ? ? ? c' HM]; subst.
  destruct (Match_consumes _ _ _ _ _ HM) as (u & -> & E).
  exists u, c'. by rewrite take_consumed.
Qed.

Lemma Match_plus p s c s' c' :
  Match (Plus p) s c s' c' ->
  exists x u, s = x :: u ++ s' /\ p x = true /\ forallb p u = true /\ c' = c.
Proof.
  intros H. apply Match_cat in H as (s1 & c1 & H1 & H2).
  apply Match_class in H1 as (x & -> & Hx & ->).
  apply Match_star in H2 as (u & -> & Hu & ->).
  by exists x, u.
Qed.

Lemma js_match_sound s r c :
  js_match s r = Some c ->
  exists u s' c', Match r s (replicate (S (groups r)) None) s' c'
                  /\ s = u ++ s' /\ c = <[0%nat := Some u]> c'
                  /\ length c' = S (groups r).
Proof.
  unfold js_match. intros H.
  apply matcher_sound in H as (s' & c' & HM & Hk).
  apply Match_group in HM as (u & c1 & HM & -> & E & ->).
  inversion Hk; subst c.
  exists u, s', c1. by rewrite E, length_replicate.
Qed.

(** Conversely, the matcher answers whenever a match exists that the rest
    of the pattern accepts: [null] means there is none. *)
Lemma matcher_complete {R} r s c s' c' :
  Match r s c s' c' ->
  forall (k : @cont R) res, k s' c' = Some res ->
  exists res', matcher r k s c = Some res'.
Proof.
  induction 1 as [s c|p x s c Hp|r1 r2 s c s1 c1 s2 c2 _ IH1 _ IH2
                 |r1 r2 s c s' c' _ IH|r1 r2 s c s' c' _ IH
                 |p s c|p x s c s' c' Hp _ IH
                 |r s c s' c' _ IH|r s c|i r s c s' c' _ IH];
    intros k res Hk; simpl.
  - by exists res.
  - rewrite Hp. by exists res.
  - destruct (IH2 k res Hk) as [res2 H2]. exact (IH1 _ _ H2).
  - destruct (IH k res Hk) as [res1 ->]. by exists res1.
  - destruct (matcher r1 k s c) as [res1|]; [by exists res1|]. exact (IH k res Hk).
  - destruct s as [|x s]; simpl; [by exists res|].
    destruct (p x); [|by exists res].
    destruct (star p k s c) as [res1|]; [by exists res1 | by exists res].
  - rewrite Hp. destruct (IH k res Hk) as [res1 H1]. simpl in H1.
    rewrite H1. by exists res1.
  - destruct (IH k res Hk) as [res1 ->]. by exists res1.
  - destruct (matcher r k s c) as [res1|]; [by exists res1 | by exists res].
  - exact (IH _ res Hk).
Qed.

Lemma js_match_complete s r s' c' :
  Match r s (replicate (S (groups r)) None) s' c' ->
  exists c, js_match s r = Some c.
Proof.
  intros H. unfold js_match.
  eapply (matcher_complete (Group 0 r)); [by constructor | reflexivity].
Qed.

Lemma Match_alt r1 r2 s c s' c' :
  Match (Alt r1 r2) s c s' c' -> Match r1 s c s' c' \/ Match r2 s c s' c'.
Proof. inversion 1; subst; auto. Qed.

Lemma Match_opt r s c s' c' :
  Match (Opt r) s c s' c' -> Match r s c s' c' \/ (s' = s /\ c' = c).
Proof. inversion 1; subst; auto. Qed.

(** ** The patterns on sample lines *)

Example LOG_REGEX_read_line :
  js_match (jsq "p:0: handleServerMessage d {'p':'users/42','d':7}") LOG_REGEX
  = Some [Some (jsq "p:0: handleServerMessage d {'p':'users/42','d':7}");
          Some (js "handleServerMessage d ");
          Some (jsq "{'p':'users/42','d':7}")].
Proof. vm_compute; reflexivity. Qed.

Example LOG_REGEX_write_line :
  js_match (jsq "p:12: {'r':3,'a':'q','b':{'p':'/users','h':''}}") LOG_REGEX
  = Some [Some (jsq "p:12: {'r':3,'a':'q','b':{'p':'/users','h':''}}");
          Some [];
          Some (jsq "{'r':3,'a':'q','b':{'p':'/users','h':''}}")].
Proof. vm_compute; reflexivity. Qed.

Example LOG_REGEX_other_line :
  js_match (js "c:0:1 reconnecting") LOG_REGEX = None.
Proof. vm_compute; reflexivity. Qed.

Example READ_REGEX_from_server :
  js_match (js "from server: ") READ_REGEX
  = Some [Some (js "from server: "); Some (js "from server:"); Some []].
Proof. vm_compute; reflexivity. Qed.

Example READ_PATH_REGEX_path :
  js_match (jsq "{'p':'users/42','d':7}") READ_PATH_REGEX
  = Some [Some (jsq "{'p':'users/42'"); Some (js "users/42")].
Proof. vm_compute; reflexivity. Qed.

(** The optional group is given up when no double quote follows it. *)
Example WRITE_REGEX_with_path :
  js_match (jsq "{'r':3,'a':'p','b':{'p':'/users/42','d':7}}") WRITE_REGEX
  = Some [Some (jsq "{'r':3,'a':'p','b':{'p':'/users/42'");
          Some (js "p"); Some (jsq "'p':'/users/42"); Some (js "/users/42")].
Proof. vm_compute; reflexivity. Qed.

Example WRITE_REGEX_without_path :
  js_match (jsq "{'r':3,'a':'auth','b':{'cred':'x'}}") WRITE_REGEX
  = Some [Some (jsq "{'r':3,'a':'auth','b':{'"); Some (js "auth"); None; None].
Proof. vm_compute; reflexivity. Qed.

Example WRITE_REGEX_empty_path :
  js_match (jsq "{'r':3,'a':'p','b':{'p':'','d':7}}") WRITE_REGEX
  = Some [Some (jsq "{'r':3,'a':'p','b':{'"); Some (js "p"); None; None].
Proof. vm_compute; reflexivity. Qed.

Example WRITE_REGEX_no_match :
  js_match (jsq "{'t':'d','d':{'r':3}}") WRITE_REGEX = None.
Proof. vm_compute; reflexivity. Qed.

Example TIME_OFFSET_REGEX_negative :
  js_match (js "event: /.info/serverTimeOffset:value:-42") TIME_OFFSET_REGEX
  = Some [Some (js "event: /.info/serverTimeOffset:value:-42"); Some (js "-42")].
Proof. vm_compute; reflexivity. Qed.

(** ** The shape of what the patterns capture *)

(** Both groups of [LOG_REGEX] take part in every match; the payload
    segment starts at the first opening brace of the line. *)
Lemma LOG_REGEX_groups message match_ :
  js_match message LOG_REGEX = Some match_ ->
  exists d ds prefix body rest,
    message = js "p:" ++ (d :: ds) ++ js ": " ++ prefix ++ (123%N :: body) ++ rest
    /\ digit d = true /\ forallb digit ds = true
    /\ forallb (not_char "{") prefix = true /\ forallb dot body = true
    /\ group match_ 1 = Some prefix
    /\ group match_ 2 = Some (123%N :: body).
Proof.
  intros H. apply js_match_sound in H as (u & s' & c' & HM & Hs & -> & _).
  unfold LOG_REGEX in HM.
  apply Match_cat in HM as (s1 & c1 & H1 & HM). apply Match_lit in H1 as [E1 ->].
  apply Match_cat in HM as (s2 & c2 & H2 & HM).
  apply Match_plus in H2 as (d & ds & E2 & Hd & Hds & ->).
  apply Match_cat in HM as (s3 & c3 & H3 & HM). apply Match_lit in H3 as [E3 ->].
  apply Match_cat in HM as (s4 & c4 & H4 & HM).
  apply Match_group in H4 as (prefix & c4' & H4 & E4 & _ & ->).
  apply Match_star in H4 as (prefix' & E4' & Hp & ->).
  rewrite E4 in E4'. apply app_inv_tail in E4'. subst prefix'.
  apply Match_group in HM as (value & c5 & HM & E5 & _ & ->).
  apply Match_cat in HM as (s6 & c6 & H6 & HM). apply Match_lit in H6 as [E6 ->].
  apply Match_star in HM as (body & E7 & Hb & ->).
  subst s1 s2 s3.
  assert (value = 123%N :: body) as ->.
  { subst s4 s6. change (js "{" ++ body ++ s') with ((123%N :: body) ++ s') in E5.
    by apply app_inv_tail in E5. }
  exists d, ds, prefix, body, s'.
  repeat split; try done.
  subst message s4 s6. reflexivity.
Qed.

(** Group 1 of [TIME_OFFSET_REGEX] is a decimal numeral with an optional
    minus sign. *)
Lemma TIME_OFFSET_REGEX_group message match_ :
  js_match message TIME_OFFSET_REGEX = Some match_ ->
  exists sign d ds,
    group match_ 1 = Some (sign ++ d :: ds)
    /\ (sign = [] \/ sign = js "-")
    /\ digit d = true /\ forallb digit ds = true.
Proof.
  intros H. apply js_match_sound in H as (u & s' & c' & HM & Hs & -> & _).
  unfold TIME_OFFSET_REGEX in HM.
  apply Match_cat in HM as (s1 & c1 & H1 & HM). apply Match_lit in H1 as [E1 ->].
  apply Match_group in HM as (g & c2 & HM & E2 & _ & ->).
  apply Match_cat in HM as (s3 & c3 & H3 & HM).
  apply Match_plus in HM as (d & ds & E4 & Hd & Hds & ->).
  apply Match_opt in H3 as [H3 | [-> ->]].
  - apply Match_class in H3 as (x & E3 & Hx & ->).
    unfold is_char in Hx. apply N.eqb_eq in Hx.
    assert (g = js "-" ++ d :: ds) as ->.
    { apply (app_inv_tail s'). rewrite <- E2, E3, E4, Hx. reflexivity. }
    exists (js "-"), d, ds. auto.
  - assert (g = d :: ds) as ->.
    { apply (app_inv_tail s'). rewrite <- E2, E4. reflexivity. }
    exists [], d, ds. auto.
Qed.

(** Group 1 of [READ_REGEX] is one of the two origins, without the space
    that follows it. *)
Lemma READ_REGEX_groups prefix details :
  js_match prefix READ_REGEX = Some details ->
  exists code,
    (group details 1 = Some (js "from server:")
     \/ group details 1 = Some (js "handleServerMessage"))
    /\ group details 2 = Some code /\ forallb word code = true.
Proof.
  intros H. apply js_match_sound in H as (u & s' & c' & HM & Hs & -> & _).
  unfold READ_REGEX in HM.
  apply Match_cat in HM as (s1 & c1 & H1 & HM).
  apply Match_group in H1 as (g & c2 & H1 & E1 & _ & ->).
  apply Match_cat in HM as (s2 & c3 & H2 & HM). apply Match_lit in H2 as [E2 ->].
  apply Match_group in HM as (code & c4 & HM & E3 & _ & ->).
  apply Match_star in HM as (code' & E4 & Hc & ->).
  rewrite E3 in E4. apply app_inv_tail in E4. subst code'.
  exists code.
  apply Match_alt in H1 as [H1 | H1]; apply Match_lit in H1 as [E ->];
    rewrite E1 in E; apply app_inv_tail in E; subst g; simpl; auto.
Qed.

(** ** Doubles

    Integers below 2^53 in magnitude are doubles, and their sums are
    exact; no operation of the collector gives [NaN]. *)

Lemma digits2_pos_size p : digits2_pos p = Pos.size p.
Proof. induction p as [p IH|p IH|]; simpl; by rewrite ?IH. Qed.

Lemma iter_pos_iter {A} (f : A -> A) n : forall x, SpecFloat.iter_pos f n x = Pos.iter f x n.
Proof.
  induction n as [n IH|n IH|]; intros x; simpl; [|by rewrite !IH|done].
  by rewrite !IH, <- !Pos.iter_swap.
Qed.

Lemma iter_xO_eq p k : Zpos (Pos.iter xO p k) = Zpos p * 2 ^ Zpos k.
Proof.
  induction k as [|k IH] using Pos.peano_ind; [simpl; lia|].
  rewrite Pos.iter_succ, Pos2Z.inj_succ, Z.pow_succ_r by lia.
  rewrite Pos2Z.inj_xO, IH. lia.
Qed.

Lemma digits2_iter_xO p k :
  Zpos (digits2_pos (Pos.iter xO p k)) = Zpos (digits2_pos p) + Zpos k.
Proof.
  induction k as [|k IH] using Pos.peano_ind.
  - simpl. lia.
  - rewrite Pos.iter_succ. simpl digits2_pos. lia.
Qed.

Lemma digits2_lt p : Zpos p < 2 ^ 53 -> Zpos (digits2_pos p) <= 53.
Proof.
  intros H. rewrite digits2_pos_size.
  destruct (Z.le_gt_cases (Zpos (Pos.size p)) 53) as [|Hgt]; [done|exfalso].
  pose proof (Pos.size_le p) as Hle.
  assert (2 ^ 54 <= 2 ^ Zpos (Pos.size p)) by (apply Z.pow_le_mono_r; lia).
  assert (Zpos (2 ^ Pos.size p) = 2 ^ Zpos (Pos.size p)) as E
    by (by rewrite Pos2Z.inj_pow).
  assert (Zpos (2 ^ Pos.size p) <= Zpos p~0) by (apply Pos2Z.pos_le_pos; exact Hle).
  rewrite E in *. change (2 ^ 54) with (2 * 2 ^ 53) in *. lia.
Qed.

Lemma shr_zeros q t :
  Pos.iter shr_1 {| shr_m := Zpos (Pos.iter xO q t); shr_r := false; shr_s := false |} t
  = {| shr_m := Zpos q; shr_r := false; shr_s := false |}.
Proof.
  induction t as [|t IH] using Pos.peano_ind; [done|].
  rewrite Pos.iter_succ at 1. rewrite <- Pos.iter_swap.
  rewrite Pos.iter_succ. simpl shr_1. exact IH.
Qed.

Lemma binary_round_aux_canon s m e :
  Zpos (digits2_pos m) = 53 -> -1074 <= e <= 971 ->
  binary_round_aux 53 1024 s (Zpos m) e loc_Exact = S754_finite s m e.
Proof.
  intros Hd He. unfold binary_round_aux, shr_fexp, fexp, emin. simpl Zdigits2.
  rewrite Hd. replace (Z.max (53 + e - 53) (3 - 1024 - 53) - e) with 0 by lia.
  simpl. rewrite Hd.
  replace (Z.max (53 + e - 53) (3 - 1024 - 53) - e) with 0 by lia.
  simpl. destruct (Z.leb_spec e (1024 - 53)); [done|lia].
Qed.

Lemma binary_round_scaled s p j :
  Zpos p < 2 ^ 53 -> 0 <= j <= 53 ->
  binary_round 53 1024 s (Pos.shiftl p (Z.to_N j)) (- j) = canon s p.
Proof.
  intros Hp Hj. pose proof (digits2_lt p Hp) as Hd.
  assert (0 < Zpos (digits2_pos p)) as Hd0 by lia.
  remember (Zpos (digits2_pos p)) as d eqn:Ed.
  assert (Zpos (digits2_pos (Pos.shiftl p (Z.to_N j))) = d + j) as Hdj.
  { destruct j as [|j|j]; [change (Pos.shiftl p (Z.to_N 0)) with p; lia| |lia].
    change (Pos.shiftl p (Z.to_N (Zpos j))) with (Pos.iter xO p j).
    rewrite Ed. apply digits2_iter_xO. }
  unfold binary_round, shl_align, fexp, emin. rewrite Hdj.
  replace (Z.max (d + j + - j - 53) (3 - 1024 - 53) - - j) with (d - 53 + j) by lia.
  replace (Z.max (d + j + - j - 53) (3 - 1024 - 53)) with (d - 53) by lia.
  unfold canon. rewrite <- Ed.
  destruct (Z.lt_trichotomy (d + j) 53) as [Hlt|[Heq|Hgt]].
  - (* shifted left up to 53 digits *)
    destruct (d - 53 + j) as [|k|k] eqn:Ek; [lia|lia|].
    destruct (53 - d) as [|k'|k'] eqn:Ek'; [lia| |lia].
    assert (Pos.iter xO (Pos.shiftl p (Z.to_N j)) k = Pos.iter xO p k') as ->.
    { destruct j as [|j|j]; [|  |lia].
      - change (Pos.shiftl p (Z.to_N 0)) with p. f_equal. lia.
      - change (Pos.shiftl p (Z.to_N (Zpos j))) with (Pos.iter xO p j).
        rewrite <- Pos.iter_add. f_equal. lia. }
    apply binary_round_aux_canon; [|lia].
    rewrite digits2_iter_xO, <- Ed. lia.
  - (* already 53 digits *)
    replace (d - 53 + j) with 0 by lia.
    destruct (53 - d) as [|k'|k'] eqn:Ek'; [| |lia].
    + replace j with 0 by lia. simpl.
      apply binary_round_aux_canon; lia.
    + replace (- j) with (d - 53) by lia.
      replace (Z.to_N j) with (Npos k') by lia. simpl.
      apply binary_round_aux_canon; [|lia].
      rewrite digits2_iter_xO, <- Ed. lia.
  - (* more than 53 digits: the zeros are shifted out again *)
    destruct (d - 53 + j) as [|k|k] eqn:Ek; [lia| |lia].
    destruct j as [|j|j]; [lia| |lia].
    change (Pos.shiftl p (Z.to_N (Zpos j))) with (Pos.iter xO p j) in *.
    unfold binary_round_aux, shr_fexp, fexp, emin. simpl Zdigits2.
    rewrite digits2_iter_xO, <- Ed.
    replace (Z.max (d + Zpos j + - Zpos j - 53) (3 - 1024 - 53) - - Zpos j)
      with (Zpos k) by lia.
    unfold shr. rewrite iter_pos_iter. simpl shr_record_of_loc.
    destruct (53 - d) as [|k'|k'] eqn:Ek'; [| |lia].
    + assert (k = j) as -> by lia. rewrite shr_zeros.
      cbn [fst snd shr_m loc_of_shr_record round_nearest_even Zdigits2].
      rewrite <- Ed. replace (- Zpos j + Zpos j) with 0 by lia.
      replace (Z.max (d + 0 - 53) (3 - 1024 - 53) - 0) with 0 by lia.
      cbn. done.
    + assert (j = (k + k')%positive) as -> by lia.
      rewrite Pos.iter_add, shr_zeros.
      cbn [fst snd shr_m loc_of_shr_record round_nearest_even Zdigits2].
      rewrite digits2_iter_xO, <- Ed.
      replace (- Zpos (k + k') + Zpos k) with (d - 53) by lia.
      replace (Z.max (d + Zpos k' + (d - 53) - 53) (3 - 1024 - 53) - (d - 53)) with 0 by lia.
      cbn [shr shr_record_of_loc fst snd shr_m].
      destruct (Z.leb_spec (d - 53) (1024 - 53)); [done|lia].
Qed.

Lemma shiftl_Z p j : 0 <= j -> Zpos (Pos.shiftl p (Z.to_N j)) = Zpos p * 2 ^ j.
Proof.
  intros Hj. destruct j as [|j|j]; [|apply iter_xO_eq|lia].
  change (Pos.shiftl p (Z.to_N 0)) with p. lia.
Qed.

Lemma normalize_scaled n j sz :
  Z.abs n < 2 ^ 53 -> 0 <= j <= 53 ->
  binary_normalize 53 1024 (n * 2 ^ j) (- j) sz = binary_normalize 53 1024 n 0 sz.
Proof.
  intros Hn Hj. destruct n as [|p|p]; [done| |].
  - rewrite <- shiftl_Z by lia. simpl binary_normalize.
    rewrite binary_round_scaled by lia.
    symmetry. apply (binary_round_scaled false p 0); lia.
  - change (Zneg p) with (- Zpos p). rewrite Z.mul_opp_l, <- shiftl_Z by lia.
    simpl binary_normalize.
    rewrite binary_round_scaled by lia.
    symmetry. apply (binary_round_scaled true p 0); lia.
Qed.

Lemma canon_shiftl s p :
  Zpos p < 2 ^ 53 ->
  canon s p
  = S754_finite s (Pos.shiftl p (Z.to_N (53 - Zpos (digits2_pos p))))
      (Zpos (digits2_pos p) - 53).
Proof.
  intros Hp. pose proof (digits2_lt p Hp) as Hd. unfold canon.
  destruct (53 - Zpos (digits2_pos p)) as [|k|k] eqn:Ek; [|done|lia].
  change (Pos.shiftl p (Z.to_N 0)) with p. f_equal. lia.
Qed.

Lemma Number_pos sz p : Zpos p < 2 ^ 53 -> Number sz (Zpos p) = canon false p.
Proof. intros Hp. apply (binary_round_scaled false p 0); lia. Qed.

Lemma Number_neg sz p : Zpos p < 2 ^ 53 -> Number sz (Zneg p) = canon true p.
Proof. intros Hp. apply (binary_round_scaled true p 0); lia. Qed.

Lemma to_Z_canon s p :
  Zpos p < 2 ^ 53 -> to_Z (canon s p) = Some (if s then Zneg p else Zpos p).
Proof.
  intros Hp. rewrite canon_shiftl by done.
  pose proof (digits2_lt p Hp) as Hd.
  remember (Zpos (digits2_pos p)) as d eqn:Ed.
  assert (0 < d) by lia.
  unfold to_Z. rewrite shiftl_Z by lia.
  destruct (d - 53) as [|e|e] eqn:Ee; [| lia |].
  - replace (53 - d) with 0 by lia. simpl. rewrite Z.mul_1_r. by destruct s.
  - replace (- Zneg e) with (53 - d) by lia.
    rewrite Z.mod_mul by lia. simpl Z.eqb. cbv iota.
    rewrite Z.div_mul by lia. simpl. by destruct s.
Qed.

(** A number that is an integer below 2^53 in magnitude is that integer. *)
Lemma to_Z_Number sz n : Z.abs n < 2 ^ 53 -> to_Z (Number sz n) = Some n.
Proof.
  intros Hn. destruct n as [|p|p]; [done| |].
  - rewrite Number_pos, to_Z_canon; done || lia.
  - rewrite Number_neg, to_Z_canon; done || lia.
Qed.

Lemma shl_align_value m e e' :
  e' <= e -> Zpos (fst (shl_align m e e')) = Zpos m * 2 ^ (e - e').
Proof.
  intros He. unfold shl_align.
  destruct (e' - e) as [|k|k] eqn:Ek; [|lia|].
  - replace (e - e') with 0 by lia. simpl. lia.
  - simpl fst. rewrite iter_xO_eq. f_equal. f_equal. lia.
Qed.

Lemma canon_add (sa : bool) pa (sb : bool) pb :
  Zpos pa < 2 ^ 53 -> Zpos pb < 2 ^ 53 ->
  let a := if sa then Zneg pa else Zpos pa in
  let b := if sb then Zneg pb else Zpos pb in
  Z.abs (a + b) < 2 ^ 53 ->
  add (canon sa pa) (canon sb pb) = Number false (a + b).
Proof.
  intros Ha Hb a b Hab. rewrite !canon_shiftl by done.
  pose proof (digits2_lt pa Ha) as Hda. pose proof (digits2_lt pb Hb) as Hdb.
  remember (Zpos (digits2_pos pa)) as da eqn:Eda.
  remember (Zpos (digits2_pos pb)) as db eqn:Edb.
  assert (0 < da) by lia. assert (0 < db) by lia.
  unfold add, SFadd.
  set (ez := Z.min (da - 53) (db - 53)).
  rewrite !shl_align_value, !shiftl_Z by lia.
  assert (forall (s : bool) (p : positive) (d : Z), d - 53 >= ez -> d <= 53 ->
            cond_Zopp s (Zpos p * 2 ^ (53 - d) * 2 ^ (d - 53 - ez))
            = (if s then Zneg p else Zpos p) * 2 ^ (- ez)) as Hc.
  { intros s p d H1 H2. rewrite <- Z.mul_assoc, <- Z.pow_add_r by lia.
    replace (53 - d + (d - 53 - ez)) with (- ez) by lia.
    destruct s; simpl; lia. }
  rewrite !Hc by lia. rewrite <- Z.mul_add_distr_r.
  replace ez with (- - ez) at 2 by lia.
  apply normalize_scaled; lia.
Qed.

(** Addition of integers that stay below 2^53 is exact. *)
Lemma add_Number a sb b :
  Z.abs a < 2 ^ 53 -> Z.abs b < 2 ^ 53 -> Z.abs (a + b) < 2 ^ 53 ->
  add (Number false a) (Number sb b) = Number false (a + b).
Proof.
  intros Ha Hb Hab.
  destruct a as [|pa|pa].
  - rewrite Z.add_0_l. destruct b as [|pb|pb]; [by destruct sb| |].
    + rewrite !Number_pos by lia. unfold canon. by destruct (53 - _).
    + rewrite !Number_neg by lia. unfold canon. by destruct (53 - _).
  - destruct b as [|pb|pb].
    + rewrite Z.add_0_r, !Number_pos by lia.
      unfold canon. by destruct (53 - _), sb.
    + rewrite (Number_pos false pa), (Number_pos sb pb) by lia.
      by apply (canon_add false pa false pb).
    + rewrite (Number_pos false pa), (Number_neg sb pb) by lia.
      by apply (canon_add false pa true pb).
  - destruct b as [|pb|pb].
    + rewrite Z.add_0_r, !Number_neg by lia.
      unfold canon. by destruct (53 - _), sb.
    + rewrite (Number_neg false pa), (Number_pos sb pb) by lia.
      by apply (canon_add true pa false pb).
    + rewrite (Number_neg false pa), (Number_neg sb pb) by lia.
      by apply (canon_add true pa true pb).
Qed.

Lemma shr_nonneg mrs e n : 0 <= shr_m mrs -> 0 <= shr_m (fst (shr mrs e n)).
Proof.
  intros H. destruct n as [|k|k]; [done| |done].
  simpl. rewrite iter_pos_iter. apply Pos.iter_invariant; [|done].
  intros [[|[m|m|]|m] r s0]; simpl; lia.
Qed.

Lemma binary_round_aux_not_NaN s m e l :
  0 <= m -> binary_round_aux 53 1024 s m e l <> NaN.
Proof.
  intros Hm. unfold binary_round_aux, shr_fexp.
  match goal with |- context [shr ?r ?e0 ?n] =>
    pose proof (shr_nonneg r e0 n) as H1; destruct (shr r e0 n) as [mrs' e'] end.
  simpl in H1.
  assert (0 <= shr_m mrs') as H1' by (apply H1; by destruct l as [|[]]).
  match goal with |- context [shr ?r ?e0 ?n] =>
    pose proof (shr_nonneg r e0 n) as H2; destruct (shr r e0 n) as [mrs'' e''] end.
  simpl in H2.
  assert (0 <= shr_m mrs'') as H2'.
  { apply H2. simpl. unfold round_nearest_even.
    destruct (loc_of_shr_record mrs') as [|[]]; try destruct (Z.even _); lia. }
  destruct (shr_m mrs'') as [|k|k]; [done| |lia].
  by destruct (_ <=? _).
Qed.

Lemma binary_normalize_not_NaN m e sz : binary_normalize 53 1024 m e sz <> NaN.
Proof.
  destruct m as [|p|p]; [done| |];
    unfold binary_normalize, binary_round;
    destruct (shl_align _ _ _); by apply binary_round_aux_not_NaN.
Qed.

Lemma Number_not_NaN sz n : Number sz n <> NaN.
Proof. apply binary_normalize_not_NaN. Qed.

(** Neither [Date.now() + offset] nor its quotient by 1000 is [NaN]
    when the offset is not: the time is finite. *)
Lemma add_div_1000_not_NaN a b :
  Z.abs a < 2 ^ 53 -> b <> NaN -> add_div_1000 a b <> NaN.
Proof.
  intros Ha Hb. unfold add_div_1000.
  assert (add (Number false a) b <> NaN) as Hadd.
  { destruct a as [|p|p].
    - destruct b as [[]| | |]; done.
    - rewrite Number_pos by lia. unfold canon.
      destruct (53 - _); destruct b as [[]|[]| |sb mb eb]; try done;
        apply binary_normalize_not_NaN.
    - rewrite Number_neg by lia. unfold canon.
      destruct (53 - _); destruct b as [[]|[]| |sb mb eb]; try done;
        apply binary_normalize_not_NaN. }
  change (Number false 1000) with (S754_finite false 8796093022208000 (-43)).
  destruct (add _ _) as [sx|sx| |sx mx ex]; [done|done|done|].
  unfold div, SFdiv, SFdiv_core_binary.
  match goal with |- context [Z.div_eucl ?x ?y] =>
    pose proof (Z.div_eucl_eq x y ltac:(done));
    pose proof (Z.mod_pos_bound x y ltac:(done)) as Hr;
    unfold Z.modulo in Hr;
    assert (0 <= x) as Hx; [|destruct (Z.div_eucl x y) as [q r]] end.
  { destruct (_ - _) as [|k|k]; [done| |done]. by apply Z.shiftl_nonneg. }
  apply binary_round_aux_not_NaN. nia.
Qed.

(** ** [parseInt] on what [TIME_OFFSET_REGEX] captures *)

Lemma digit_range x : digit x = true -> (48 <= x <= 57)%N.
Proof.
  unfold digit. rewrite andb_true_iff, !N.leb_le. lia.
Qed.

Lemma digit_not_white x : digit x = true -> white_space x = false.
Proof.
  intros H%digit_range. unfold white_space, line_terminator.
  repeat match goal with
         | |- (_ || _)%bool = false => apply orb_false_intro
         | |- (_ && _)%bool = false => apply andb_false_iff
         | |- N.eqb _ _ = false => apply N.eqb_neq; lia
         end.
  left. apply N.leb_gt. lia.
Qed.

Lemma digits_value_some s : forall a, exists n, digits_value (Some a) s = Some n.
Proof.
  induction s as [|x s IH]; simpl; intros a; [by eexists|].
  destruct (digit x); [apply IH | by eexists].
Qed.

(** One more digit on the right: ten times the value so far, plus the
    digit. *)
Lemma digits_value_snoc ds d : forall acc,
  forallb digit ds = true ->
  digit d = true ->
  digits_value acc (ds ++ [d])
  = Some (10 * default 0 (digits_value acc ds) + (Z.of_N d - 48)).
Proof.
  induction ds as [|x ds IH]; simpl; intros acc Hds Hd.
  - by rewrite Hd.
  - apply andb_true_iff in Hds as [Hx Hds]. rewrite Hx. by apply IH.
Qed.

Lemma parseInt_numeral sign d ds :
  sign = [] \/ sign = js "-" ->
  digit d = true ->
  exists v, digits_value None (d :: ds) = Some v
            /\ signed_decimal (Some (sign ++ d :: ds))
               = Some (truthy sign, if truthy sign then - v else v)
            /\ parseInt (Some (sign ++ d :: ds))
               = Number (truthy sign) (if truthy sign then - v else v).
Proof.
  intros Hs Hd.
  assert (exists v, digits_value None (d :: ds) = Some v) as [v Hv].
  { simpl. rewrite Hd. apply digits_value_some. }
  exists v. split; [exact Hv|].
  pose proof (digit_range _ Hd) as Hr.
  assert (is_char "-" d = false) as Hm by (apply N.eqb_neq; simpl; lia).
  destruct Hs as [-> | ->]; unfold parseInt, signed_decimal.
  - change ([] ++ d :: ds) with (d :: ds). split; [by rewrite Hm, Hv|].
    assert (skip_white (d :: ds) = d :: ds) as ->
      by (simpl; by rewrite (digit_not_white _ Hd)).
    rewrite Hm.
    assert (is_char "+" d = false) as -> by (apply N.eqb_neq; simpl; lia).
    cbv beta iota zeta. rewrite Hv. simpl. by destruct v.
  - change (js "-" ++ d :: ds) with (45%N :: d :: ds).
    assert (is_char "-" 45%N = true) as Hc by reflexivity.
    split; [by rewrite Hc, Hv|].
    change (skip_white (45%N :: d :: ds)) with (45%N :: d :: ds).
    cbv beta iota zeta. rewrite Hc.
    cbv beta iota zeta. rewrite Hv.
    change (-1 <? 0) with true. f_equal; lia.
Qed.

(** ** Frames: what each statement leaves alone *)

Arguments js : simpl never.
Arguments jsq : simpl never.

Lemma console_log_eq args st : console_log args st = (Normal tt, log_to [args] st).
Proof. by destruct st as [this rt]. Qed.

Lemma log_to_nil st : log_to [] st = st.
Proof. destruct st as [this []]. unfold log_to; simpl. by rewrite app_nil_r. Qed.

Lemma new_BandwidthCollector_valid options rt :
  valid (new_BandwidthCollector options rt).
Proof.
  unfold new_BandwidthCollector, valid; simpl. rewrite length_app; simpl. lia.
Qed.

Lemma deref_app_l (h h' : list (list TableRow.t)) r :
  (r < length h)%nat -> deref (h ++ h') r = deref h r.
Proof. intros H. unfold deref. by rewrite lookup_app_l. Qed.

Lemma deref_fresh (h : list (list TableRow.t)) : deref (h ++ [[]]) (length h) = [].
Proof. unfold deref. by rewrite list_lookup_middle. Qed.

Lemma deref_insert_eq (h : list (list TableRow.t)) r l :
  (r < length h)%nat -> deref (<[r := l]> h) r = l.
Proof. intros H. unfold deref. by rewrite list_lookup_insert_eq. Qed.

Lemma deref_insert_ne (h : list (list TableRow.t)) r r' l :
  r <> r' -> deref (<[r := l]> h) r' = deref h r'.
Proof. intros H. unfold deref. by rewrite list_lookup_insert_ne. Qed.

Lemma deref_nonempty (h : list (list TableRow.t)) r : deref h r <> [] -> (r < length h)%nat.
Proof.
  unfold deref. intros H. destruct (h !! r) eqn:E; [|done].
  by apply lookup_lt_Some in E.
Qed.

Lemma snoc_neq {A} (l : list A) x : l <> l ++ [x].
Proof.
  intros E. apply (f_equal length) in E. rewrite length_app in E. simpl in E. lia.
Qed.

(** ** The two parsers *)

(** Read parsing never throws and writes to the console only; a row it
    returns was built from a match of [READ_REGEX] without any diagnostic. *)
Lemma parseRead_spec prefix value st :
  exists o lines,
    _parseReadMessage prefix value st = (Normal o, log_to lines st)
    /\ forall row, o = Some row ->
         lines = []
         /\ exists details,
              js_match prefix READ_REGEX = Some details
              /\ TableRow.op row = js "r"
              /\ TableRow.size row = read_size value (read_messageType details)
              /\ (exists p, TableRow.path row = 47%N :: p)
              /\ TableRow.time row = None /\ TableRow.tag row = None.
Proof.
  unfold _parseReadMessage.
  destruct (js_match prefix READ_REGEX) as [details|].
  2: { exists None, []. by rewrite log_to_nil. }
  destruct (is_lit (read_messageType details) "d" || is_lit (read_messageType details) "m").
  { destruct (js_match value READ_PATH_REGEX) as [pathDetails|].
    - eexists (Some _), []. rewrite log_to_nil. split; [reflexivity|].
      intros row [= <-]. split; [done|]. exists details.
      repeat split; try done. by eexists.
    - eexists None, [_]. unfold bind. rewrite console_log_eq. split; [reflexivity|].
      intros row [=]. }
  destruct (is_lit (read_messageType details) "").
  { eexists (Some _), []. rewrite log_to_nil. split; [reflexivity|].
    intros row [= <-]. split; [done|]. exists details.
    repeat split; try done. by eexists. }
  destruct (is_lit (read_messageType details) "sd").
  { eexists (Some _), []. rewrite log_to_nil. split; [reflexivity|].
    intros row [= <-]. split; [done|]. exists details.
    repeat split; try done. by eexists. }
  eexists None, [_]. unfold bind. rewrite console_log_eq. split; [reflexivity|].
  intros row [=].
Qed.

(** Write parsing throws when [WRITE_REGEX] does not match; when it does,
    it behaves like read parsing, and the path of a row is the protocol
    path or group 3 as captured. *)
Lemma parseWrite_spec value st :
  match js_match value WRITE_REGEX with
  | None =>
      exists msg, _parseWriteMessage value st = (Throw (TypeError msg), st)
  | Some details =>
      exists o lines,
        _parseWriteMessage value st = (Normal o, log_to lines st)
        /\ forall row, o = Some row ->
             lines = []
             /\ TableRow.op row = js "w"
             /\ TableRow.size row = Z.of_nat (length value) + 16
             /\ TableRow.path row <> []
             /\ (TableRow.path row = PROTOCOL_PATH
                 \/ (is_lit (group details 1) "m" || is_lit (group details 1) "p") = true
                    /\ group details 3 = Some (TableRow.path row))
             /\ TableRow.time row = None /\ TableRow.tag row = None
  end.
Proof.
  unfold _parseWriteMessage.
  destruct (js_match value WRITE_REGEX) as [details|].
  2: { by eexists. }
  unfold bind, ret. cbn [is_null fst snd].
  destruct (is_lit (group details 1) "m" || is_lit (group details 1) "p") eqn:Emp.
  { destruct (group details 3) as [[|x p]|] eqn:E3.
    - eexists None, [_]. rewrite console_log_eq. split; [reflexivity|].
      intros row [=].
    - eexists (Some _), []. rewrite log_to_nil. split; [reflexivity|].
      intros row [= <-]. repeat split; try done. by right.
    - eexists None, [_]. rewrite console_log_eq. split; [reflexivity|].
      intros row [=]. }
  destruct (is_lit (group details 1) "q" || is_lit (group details 1) "l"
            || is_lit (group details 1) "n" || is_lit (group details 1) "auth"
            || is_lit (group details 1) "s").
  { eexists (Some _), []. rewrite log_to_nil. split; [reflexivity|].
    intros row [= <-]. repeat split; try done. by left. }
  eexists None, [_]. rewrite console_log_eq. split; [reflexivity|].
  intros row [=].
Qed.

(** ** [flush] and [_pushRow] *)

Lemma flush_empty fe st :
  pending st = [] ->
  flush fe st = (Normal tt, snd (set_lastFlushTimestamp (Date_now fe) st)).
Proof.
  destruct st as [this rt]. unfold pending, flush, bind; simpl.
  unfold pending; simpl. by intros ->.
Qed.

Lemma flush_nonempty fe st :
  pending st <> [] ->
  flush fe st
  = table_insert fe (datasetId (_options (fst st)))
      (tableName (_options (fst st)) (new_Date fe)) (_data (fst st))
      (log_to [flushing_line (length (pending st))
                 (tableName (_options (fst st)) (new_Date fe))]
         (snd (_takeData (snd (set_lastFlushTimestamp (Date_now fe) st))))).
Proof.
  destruct st as [this rt]. unfold pending; simpl. intros Hne.
  pose proof (deref_nonempty _ _ Hne) as Hv.
  unfold flush, bind; simpl. unfold pending; simpl.
  destruct (deref (heap rt) (_data this)) as [|x l] eqn:E; [done|].
  simpl. unfold flushing_line, log_to; simpl.
  rewrite deref_app_l by done. by rewrite E.
Qed.

(** After [flush] nothing is pending, whatever the sink did. *)
Lemma flush_pending fe st : pending (snd (flush fe st)) = [].
Proof.
  destruct (decide (pending st = [])) as [He|Hne].
  - rewrite flush_empty by done. by destruct st as [this rt].
  - rewrite flush_nonempty by done. destruct st as [this rt].
    unfold pending; simpl. apply deref_fresh.
Qed.

(** [flush] leaves every array of the heap as it is. *)
Lemma flush_heap fe st r :
  (r < length (heap (snd st)))%nat ->
  deref (heap (snd (snd (flush fe st)))) r = deref (heap (snd st)) r.
Proof.
  intros Hr. destruct (decide (pending st = [])) as [He|Hne].
  - rewrite flush_empty by done. by destruct st as [this rt].
  - rewrite flush_nonempty by done. destruct st as [this rt]. simpl in *.
    by apply deref_app_l.
Qed.

Lemma flush_lastFlushTimestamp fe st :
  lastFlushTimestamp (snd (snd (flush fe st))) = Date_now fe.
Proof.
  destruct (decide (pending st = [])) as [He|Hne].
  - rewrite flush_empty by done. by destruct st as [this rt].
  - rewrite flush_nonempty by done. by destruct st as [this rt].
Qed.

Lemma push_data_pending row st :
  valid st -> pending (snd (push_data row st)) = pending st ++ [row].
Proof.
  destruct st as [this rt]. unfold valid, pending; simpl. intros Hv.
  by apply deref_insert_eq.
Qed.

Lemma pushRow_eq fe row st :
  _pushRow fe row st
  = if Z.geb (_dataSize (fst st) + TableRow.size row)
             (sizeFlushThreshold (_options (fst st)))
    then flush fe (snd (push_data row st))
    else (Normal tt, snd (push_data row st)).
Proof. by destruct st as [this rt]. Qed.

(** The array that was pending when a row arrives ends with that row. *)
Lemma pushRow_heap fe row st :
  valid st ->
  deref (heap (snd (snd (_pushRow fe row st)))) (_data (fst st)) = pending st ++ [row].
Proof.
  intros Hv. rewrite pushRow_eq.
  pose proof (push_data_pending row st Hv) as Hp.
  destruct (Z.geb _ _).
  - rewrite flush_heap.
    + destruct st as [this rt]. exact Hp.
    + destruct st as [this rt]. unfold valid in Hv. simpl in *.
      by rewrite length_insert.
  - destruct st as [this rt]. exact Hp.
Qed.

Lemma unexpected_eq e st :
  unexpected e st
  = (Normal tt,
     log_to [[VStr (js "Unexpected error while collecting Firebase bandwidth:");
              VStack e]] st).
Proof. apply console_log_eq. Qed.

(** What one call of [flush] hands to the sink. *)
Lemma flush_bigquery fe st :
  bigquery (snd (snd (flush fe st)))
  = bigquery (snd st)
    ++ match pending st with
       | [] => []
       | _ :: _ =>
           [(datasetId (_options (fst st)),
             tableName (_options (fst st)) (new_Date fe), _data (fst st))]
       end.
Proof.
  destruct (pending st) as [|x l] eqn:E.
  - rewrite flush_empty by done. destruct st as [this rt]. simpl.
    by rewrite app_nil_r.
  - rewrite flush_nonempty by (by rewrite E). by destruct st as [this rt].
Qed.

Lemma flush_dataSize fe st :
  pending st <> [] -> _dataSize (fst (snd (flush fe st))) = 0.
Proof.
  intros Hne. rewrite flush_nonempty by done. by destruct st as [this rt].
Qed.

(** ** The buffer *)

(** C5: a push that brings the running size to the threshold or above
    behaves as exactly one [flush] run on the buffer with the row appended:
    afterwards no row is pending, the running size is 0, and the sink got
    one more batch, made of the rows pending before and the new row.  A
    push that leaves the running size below the threshold only appends:
    the sink gets nothing and the last-flush instant stays. *)
Theorem pushRow_flushes_at_threshold fe row st :
  valid st ->
  let st1 := snd (push_data row st) in
  let res := _pushRow fe row st in
  pending st1 = pending st ++ [row]
  /\ _dataSize (fst st1) = _dataSize (fst st) + TableRow.size row
  /\ if Z.geb (_dataSize (fst st1)) (sizeFlushThreshold (_options (fst st1)))
     then res = flush fe st1
          /\ length (pending (snd res)) = 0%nat
          /\ _dataSize (fst (snd res)) = 0
          /\ bigquery (snd (snd res))
             = bigquery (snd st)
               ++ [(datasetId (_options (fst st)),
                    tableName (_options (fst st)) (new_Date fe), _data (fst st))]
          /\ deref (heap (snd (snd res))) (_data (fst st)) = pending st ++ [row]
          /\ lastFlushTimestamp (snd (snd res)) = Date_now fe
     else res = (Normal tt, st1)
          /\ bigquery (snd st1) = bigquery (snd st)
          /\ lastFlushTimestamp (snd st1) = lastFlushTimestamp (snd st).
Proof.
  intros Hv st1 res.
  pose proof (push_data_pending row st Hv) as Hp. fold st1 in Hp.
  pose proof (pushRow_heap fe row st Hv) as Hh. fold res in Hh.
  assert (res = if Z.geb (_dataSize (fst st1)) (sizeFlushThreshold (_options (fst st1)))
                then flush fe st1 else (Normal tt, st1)) as Hres.
  { subst res st1. rewrite pushRow_eq. by destruct st as [this rt]. }
  split; [exact Hp|]. split; [by destruct st as [this rt]|].
  destruct (Z.geb _ _).
  - assert (pending st1 <> []) as Hne.
    { rewrite Hp. intros E. by apply app_eq_nil in E as [_ ?]. }
    rewrite Hres. repeat split.
    + by rewrite flush_pending.
    + by apply flush_dataSize.
    + rewrite flush_bigquery. destruct (pending st1); [done|].
      by destruct st as [this rt].
    + by rewrite <- Hres.
    + apply flush_lastFlushTimestamp.
  - rewrite Hres. by destruct st as [this rt].
Qed.

Lemma pushRow_flushes_at_threshold_witness :
  valid ex_b_state
  /\ _pushRow (ex_env 900) (ex_row 60) ex_b_state
     = flush (ex_env 900) (snd (push_data (ex_row 60) ex_b_state))
  /\ _pushRow (ex_env 900) (ex_row 59) ex_b_state
     = (Normal tt, snd (push_data (ex_row 59) ex_b_state)).
Proof.
  assert (valid ex_b_state) as Hv by (vm_compute; lia).
  split; [exact Hv|]. split.
  - exact (proj1 (proj2 (proj2
      (pushRow_flushes_at_threshold (ex_env 900) (ex_row 60) ex_b_state Hv)))).
  - exact (proj1 (proj2 (proj2
      (pushRow_flushes_at_threshold (ex_env 900) (ex_row 59) ex_b_state Hv)))).
Defined.

(** Line 138, with the comparison read the other way round. *)
Lemma flushIfLate_eq now fe st :
  flushIfLate now fe st
  = if Z.ltb (now - lastFlushTimestamp (snd st)) (forcedFlushInterval (_options (fst st)))
    then (Normal tt, st)
    else try_catch (flush fe) unexpected st.
Proof.
  unfold flushIfLate, flushIfLate_try, try_catch.
  rewrite Z.geb_leb, Z.ltb_antisym. by destruct (Z.leb _ _).
Qed.

(** C7: when less than [forcedFlushInterval] has elapsed since the
    last-flush instant, [flushIfLate] changes nothing; otherwise it runs
    [flush] exactly once, inside its [try], and the last-flush instant
    becomes the instant of that flush, also when nothing is pending, in
    which case the sink gets nothing. *)
Theorem flushIfLate_below_or_once now fe st :
  let res := flushIfLate now fe st in
  if Z.ltb (now - lastFlushTimestamp (snd st)) (forcedFlushInterval (_options (fst st)))
  then res = (Normal tt, st)
  else res = try_catch (flush fe) unexpected st
       /\ fst res = Normal tt
       /\ lastFlushTimestamp (snd (snd res)) = Date_now fe
       /\ pending (snd res) = []
       /\ bigquery (snd (snd res))
          = bigquery (snd st)
            ++ match pending st with
               | [] => []
               | _ :: _ =>
                   [(datasetId (_options (fst st)),
                     tableName (_options (fst st)) (new_Date fe), _data (fst st))]
               end.
Proof.
  intros res. subst res. rewrite flushIfLate_eq.
  destruct (Z.ltb _ _); [done|]. unfold try_catch.
  pose proof (flush_lastFlushTimestamp fe st) as Ht.
  pose proof (flush_pending fe st) as Hp.
  pose proof (flush_bigquery fe st) as Hb.
  destruct (flush fe st) as [[[]|e] st'] eqn:E; [done|].
  rewrite unexpected_eq. by destruct st' as [this' rt'].
Qed.

(** A tick one minute after the last flush, with nothing pending: the
    sink gets nothing and the last-flush instant moves to the tick. *)
Example late_tick_on_empty_buffer :
  flushIfLate 60000 (ex_env 60001) ex_fresh
  = (Normal tt,
     (fst ex_fresh,
      {| lastFlushTimestamp := 60001; serverTimeOffset := Number false 0;
         heap := [[]]; console := []; bigquery := [] |})).
Proof. vm_compute; reflexivity. Qed.

(** C10: the last-flush instant belongs to the runtime all instances
    share.  A [flush] of instance [a] sets it, and a [flushIfLate] of
    another instance [b] that comes less than [b]'s interval later does
    nothing, whatever [b] has pending and however long ago [b] flushed. *)
Theorem flush_of_one_suppresses_other a b rt fe now fe' :
  now - Date_now fe < forcedFlushInterval (_options b) ->
  let rt' := snd (snd (flush fe (a, rt))) in
  lastFlushTimestamp rt' = Date_now fe
  /\ flushIfLate now fe' (b, rt') = (Normal tt, (b, rt')).
Proof.
  intros Hlt rt'.
  assert (lastFlushTimestamp rt' = Date_now fe) as Ht
    by apply flush_lastFlushTimestamp.
  split; [exact Ht|].
  rewrite flushIfLate_eq. simpl. rewrite Ht.
  by rewrite (proj2 (Z.ltb_lt _ _) Hlt).
Qed.

(** Without the flush of [ex_a], the tick of [ex_b] at 70000 hands its row
    to the sink; after it, the same tick leaves the row pending. *)
Lemma flush_of_one_suppresses_other_witness :
  70000 - 65000 < forcedFlushInterval (_options ex_b)
  /\ length (bigquery (snd (snd (flushIfLate 70000 (ex_env 70000) (ex_b, ex_shared))))) = 1%nat
  /\ flushIfLate 70000 (ex_env 70000)
       (ex_b, snd (snd (flush (ex_env 65000) (ex_a, ex_shared))))
     = (Normal tt, (ex_b, snd (snd (flush (ex_env 65000) (ex_a, ex_shared))))).
Proof.
  assert (70000 - 65000 < forcedFlushInterval (_options ex_b)) as H
    by (vm_compute; reflexivity).
  split; [exact H|]. split; [vm_compute; reflexivity|].
  exact (proj2 (flush_of_one_suppresses_other ex_a ex_b ex_shared
                  (ex_env 65000) 70000 (ex_env 70000) H)).
Defined.

(** ** The callback [_collectLog] *)

(** What [try ... catch] with the handler of lines 40 and 140 returns. *)
Lemma try_catch_unexpected (body : M unit) st :
  exists lines,
    try_catch body unexpected st = (Normal tt, log_to lines (snd (body st)))
    /\ match fst (body st) with
       | Normal _ => lines = []
       | Throw e =>
           lines = [[VStr (js "Unexpected error while collecting Firebase bandwidth:");
                     VStack e]]
       end.
Proof.
  unfold try_catch. destruct (body st) as [[[]|e] st'].
  - exists []. by rewrite log_to_nil.
  - eexists. by rewrite unexpected_eq.
Qed.

(** C8: for every line and in every state [_collectLog] returns normally,
    also when the sink throws; a fault of the body of its [try] is caught
    there and written to the console, after which the call returns. *)
Theorem collectLog_never_throws now fe message st :
  fst (_collectLog now fe message st) = Normal tt
  /\ forall e st1,
       _collectLog_try now fe message st = (Throw e, st1) ->
       _collectLog now fe message st
       = (Normal tt,
          log_to [[VStr (js "Unexpected error while collecting Firebase bandwidth:");
                   VStack e]] st1).
Proof.
  unfold _collectLog.
  destruct (try_catch_unexpected (_collectLog_try now fe message) st) as (lines & E & Hl).
  split; [by rewrite E|].
  intros e st1 Ht. rewrite Ht in *. simpl in *. by subst lines.
Qed.

(** Two faults the body does raise: the one of write parsing, and one of
    the sink during a flush that a push triggers. *)
Lemma collectLog_never_throws_witness :
  _collectLog_try 1000 (ex_env 1000) (js "p:1: {}") ex_fresh
  = (Throw (TypeError "Cannot read property 1 of null"), ex_fresh)
  /\ fst (_collectLog 1000 (ex_env 1000) (js "p:1: {}") ex_fresh) = Normal tt
  /\ fst (_collectLog_try 1000 (ex_env_throwing 1000)
            (jsq "p:7: handleServerMessage d {'p':'users/42','d':{'name':'a rather long display name, to reach the threshold'}}")
            ex_fresh)
     = Throw (SinkError "insert failed")
  /\ fst (_collectLog 1000 (ex_env_throwing 1000)
            (jsq "p:7: handleServerMessage d {'p':'users/42','d':{'name':'a rather long display name, to reach the threshold'}}")
            ex_fresh)
     = Normal tt.
Proof.
  split; [vm_compute; reflexivity|]. split.
  - exact (proj1 (collectLog_never_throws 1000 (ex_env 1000) (js "p:1: {}") ex_fresh)).
  - split; [vm_compute; reflexivity|].
    exact (proj1 (collectLog_never_throws 1000 (ex_env_throwing 1000) _ ex_fresh)).
Defined.

(** C2: a payload segment that [WRITE_REGEX] does not match makes write
    parsing throw a [TypeError]: line 76 reads [details[1]] of [null]
    before line 77 tests [details].  Nothing is written to the console and
    nothing is returned. *)
Theorem parseWrite_throws_on_mismatch value st :
  js_match value WRITE_REGEX = None ->
  exists msg, _parseWriteMessage value st = (Throw (TypeError msg), st).
Proof.
  intros H. pose proof (parseWrite_spec value st) as Hs. by rewrite H in Hs.
Qed.

Lemma parseWrite_throws_on_mismatch_witness :
  js_match (js "{}") WRITE_REGEX = None
  /\ exists msg,
       _parseWriteMessage (js "{}") ex_fresh = (Throw (TypeError msg), ex_fresh).
Proof.
  assert (js_match (js "{}") WRITE_REGEX = None) as H by (vm_compute; reflexivity).
  split; [exact H|]. exact (parseWrite_throws_on_mismatch (js "{}") ex_fresh H).
Defined.

(** The line [p:1: {}] reaches the console as an unexpected error, not as
    the diagnostic of line 78. *)
Example mismatch_is_logged_as_unexpected :
  console (snd (snd (_collectLog 1000 (ex_env 1000) (js "p:1: {}") ex_fresh)))
  = [[VStr (js "Unexpected error while collecting Firebase bandwidth:");
      VStack (TypeError "Cannot read property 1 of null")]].
Proof. vm_compute; reflexivity. Qed.

(** C9: whenever [READ_REGEX] matches, the message type computed at line
    47 is group 2 as captured, for both origins: group 1 never ends in a
    space, so the comparison with the text of line 47 fails also for the
    origin [from server:]. *)
Theorem read_messageType_is_captured_code prefix details :
  js_match prefix READ_REGEX = Some details ->
  read_messageType details = group details 2.
Proof.
  intros H. apply READ_REGEX_groups in H as (code & [H1|H1] & _).
  - unfold read_messageType. by rewrite H1.
  - unfold read_messageType. by rewrite H1.
Qed.

(** The origin is [from server:] and the message type is [d], not empty. *)
Lemma read_messageType_is_captured_code_witness :
  exists details,
    js_match (js "from server: d") READ_REGEX = Some details
    /\ group details 1 = Some (js "from server:")
    /\ read_messageType details = Some (js "d").
Proof.
  eexists. split; [vm_compute; reflexivity|]. split; [vm_compute; reflexivity|].
  rewrite (read_messageType_is_captured_code (js "from server: d") _
             ltac:(vm_compute; reflexivity)).
  vm_compute; reflexivity.
Defined.

(** With that prefix a line is counted as a data message of type [d]. *)
Example from_server_with_code :
  pending (snd (_collectLog 1000 (ex_env 1000)
                  (jsq "p:3: from server: d{'p':'a/b'}") ex_fresh))
  = [{| TableRow.op := js "r"; TableRow.size := 11 + 16 + (7 + 1); TableRow.path := js "/a/b";
        TableRow.time := Some (add_div_1000 1000 (Number false 0));
        TableRow.tag := Some (js "web") |}].
Proof. vm_compute; reflexivity. Qed.

(** *** Which lines append a row *)

Lemma flush_offset fe st :
  serverTimeOffset (snd (snd (flush fe st))) = serverTimeOffset (snd st).
Proof.
  destruct (decide (pending st = [])) as [He|Hne].
  - rewrite flush_empty by done. by destruct st as [this rt].
  - rewrite flush_nonempty by done. by destruct st as [this rt].
Qed.

Lemma flush_valid fe st : valid st -> valid (snd (flush fe st)).
Proof.
  intros Hv. destruct (decide (pending st = [])) as [He|Hne].
  - rewrite flush_empty by done. by destruct st as [this rt].
  - rewrite flush_nonempty by done. destruct st as [this rt].
    unfold valid; simpl. rewrite length_app; simpl. lia.
Qed.

Lemma pushRow_offset fe row st :
  serverTimeOffset (snd (snd (_pushRow fe row st))) = serverTimeOffset (snd st).
Proof.
  rewrite pushRow_eq. destruct (Z.geb _ _).
  - rewrite flush_offset. by destruct st as [this rt].
  - by destruct st as [this rt].
Qed.

Lemma pushRow_valid fe row st : valid st -> valid (snd (_pushRow fe row st)).
Proof.
  intros Hv.
  assert (valid (snd (push_data row st))) as Hv1.
  { destruct st as [this rt]. unfold valid in *; simpl in *. by rewrite length_insert. }
  rewrite pushRow_eq. destruct (Z.geb _ _); [by apply flush_valid | exact Hv1].
Qed.

Lemma collectLog_try_record now fe message st match_ :
  js_match message LOG_REGEX = Some match_ ->
  exists prefix value,
    group match_ 1 = Some prefix /\ group match_ 2 = Some value
    /\ _collectLog_try now fe message st
       = bind (if truthy prefix then _parseReadMessage prefix value
               else _parseWriteMessage value)
           (stamp_and_push now fe) st.
Proof.
  intros H. unfold _collectLog_try. rewrite H.
  apply LOG_REGEX_groups in H as (d & ds & prefix & body & rest & _ & _ & _ & _ & _ & H1 & H2).
  exists prefix, (123%N :: body). by rewrite H1, H2.
Qed.

Lemma collectLog_try_other now fe message st :
  js_match message LOG_REGEX = None ->
  _collectLog_try now fe message st
  = match js_match message TIME_OFFSET_REGEX with
    | Some match_ => set_serverTimeOffset (parseInt (group match_ 1)) st
    | None => (Normal tt, st)
    end.
Proof.
  intros H. unfold _collectLog_try. rewrite H.
  by destruct (js_match message TIME_OFFSET_REGEX).
Qed.

Lemma parsed_cases prefix value st :
  exists o lines,
    parsed prefix value st = (o, log_to lines st)
    /\ forall row, o = Normal (Some row) -> lines = [].
Proof.
  unfold parsed. destruct (truthy prefix).
  - destruct (parseRead_spec prefix value st) as (o & lines & E & Hrow).
    exists (Normal o), lines. split; [exact E|].
    intros row [= ->]. by destruct (Hrow row eq_refl).
  - pose proof (parseWrite_spec value st) as Hs.
    destruct (js_match value WRITE_REGEX) as [details|].
    + destruct Hs as (o & lines & E & Hrow).
      exists (Normal o), lines. split; [exact E|].
      intros row [= ->]. by destruct (Hrow row eq_refl).
    + destruct Hs as (msg & E). exists (Throw (TypeError msg)), [].
      by rewrite log_to_nil.
Qed.

(** A row the parser returns, by direction. *)
Lemma parsed_row prefix value st row :
  parsed prefix value st = (Normal (Some row), st) ->
  (exists details,
     js_match prefix READ_REGEX = Some details
     /\ TableRow.op row = js "r"
     /\ TableRow.size row = read_size value (read_messageType details)
     /\ exists p, TableRow.path row = 47%N :: p)
  \/ (exists details,
        js_match value WRITE_REGEX = Some details
        /\ TableRow.op row = js "w"
        /\ TableRow.size row = Z.of_nat (length value) + 16
        /\ TableRow.path row <> []
        /\ (TableRow.path row = PROTOCOL_PATH
            \/ (is_lit (group details 1) "m" || is_lit (group details 1) "p") = true
               /\ group details 3 = Some (TableRow.path row))).
Proof.
  unfold parsed. destruct (truthy prefix); intros H.
  - left. destruct (parseRead_spec prefix value st) as (o & lines & E & Hrow).
    rewrite E in H. injection H as -> _.
    destruct (Hrow row eq_refl) as (_ & details & ? & ? & ? & ? & _).
    by exists details.
  - right. pose proof (parseWrite_spec value st) as Hs.
    destruct (js_match value WRITE_REGEX) as [details|].
    + destruct Hs as (o & lines & E & Hrow).
      rewrite E in H. injection H as -> _.
      destruct (Hrow row eq_refl) as (_ & ? & ? & ? & ? & _).
      by exists details.
    + destruct Hs as (msg & E). by rewrite E in H.
Qed.

(** A row is appended to the pending array only for a line [LOG_REGEX]
    matches and whose parser returns a row; the row appended is that row
    with its time and tag. *)
Lemma collectLog_event now fe message st row' :
  valid st ->
  deref (heap (snd (snd (_collectLog now fe message st)))) (_data (fst st))
  = pending st ++ [row'] ->
  exists match_ prefix value row,
    js_match message LOG_REGEX = Some match_
    /\ group match_ 1 = Some prefix /\ group match_ 2 = Some value
    /\ parsed prefix value st = (Normal (Some row), st)
    /\ row' = stamp now st row.
Proof.
  intros Hv. unfold _collectLog.
  destruct (try_catch_unexpected (_collectLog_try now fe message) st) as (lines & -> & _).
  change (heap (snd (snd (Normal tt, log_to lines (snd (_collectLog_try now fe message st))))))
    with (heap (snd (snd (_collectLog_try now fe message st)))).
  destruct (js_match message LOG_REGEX) as [match_|] eqn:EL.
  - destruct (collectLog_try_record now fe message st match_ EL)
      as (prefix & value & H1 & H2 & ->).
    intros H. exists match_, prefix, value.
    destruct (parsed_cases prefix value st) as (o & lines' & Hp & Hl).
    unfold bind in H. fold (parsed prefix value st) in H. rewrite Hp in H.
    destruct o as [[row|]|e].
    + rewrite (Hl row eq_refl), log_to_nil in H, Hp. simpl in H.
      rewrite pushRow_heap in H by done. apply app_inj_tail in H as [_ <-].
      by exists row.
    + destruct st as [this rt]. simpl in H. by apply snoc_neq in H.
    + destruct st as [this rt]. simpl in H. by apply snoc_neq in H.
  - rewrite collectLog_try_other by done. intros H.
    destruct (js_match message TIME_OFFSET_REGEX);
      destruct st as [this rt]; simpl in H; by apply snoc_neq in H.
Qed.

Lemma stamp_fields now st row :
  TableRow.op (stamp now st row) = TableRow.op row
  /\ TableRow.size (stamp now st row) = TableRow.size row
  /\ TableRow.path (stamp now st row) = TableRow.path row
  /\ TableRow.time (stamp now st row)
     = Some (add_div_1000 now (serverTimeOffset (snd st))).
Proof. unfold stamp. by destruct (truthy_opt _). Qed.

(** ** Calls on the buffer, one after the other *)

Lemma step_refl st : wf st -> step [] st st.
Proof.
  intros Hwf. split; [done|]. split; [|done].
  exists []. by rewrite !app_nil_r.
Qed.

Lemma batches_keep h h' (calls : list (str * str * nat)) :
  (forall e, e ∈ calls -> deref h' (snd e) = deref h (snd e)) ->
  batches h' calls = batches h calls.
Proof.
  induction calls as [|e calls IH]; intros H; [done|].
  unfold batches in *. simpl. rewrite H by apply list_elem_of_here.
  f_equal. apply IH. intros e' He'. apply H. by apply list_elem_of_further.
Qed.

Lemma step_trans rows1 rows2 st st' st'' :
  step rows1 st st' -> step rows2 st' st'' -> step (rows1 ++ rows2) st st''.
Proof.
  intros (Hwf1 & (l1 & Hb1 & Hc1) & Hk1) (Hwf2 & (l2 & Hb2 & Hc2) & Hk2).
  split; [done|]. split.
  - exists (l1 ++ l2). split; [by rewrite Hb2, Hb1, app_assoc|].
    replace (batches (heap (snd st'')) (l1 ++ l2))
      with (batches (heap (snd st'')) l1 ++ batches (heap (snd st'')) l2)
      by (unfold batches; by rewrite flat_map_app).
    rewrite <- app_assoc, Hc2, !app_assoc, <- Hc1. do 2 f_equal.
    apply batches_keep. intros e He. apply Hk2. rewrite Hb1.
    apply elem_of_app. by right.
  - intros e He. rewrite Hk2, Hk1; [done | done |].
    rewrite Hb1. apply elem_of_app. by left.
Qed.

Lemma step_log_to lines st : wf st -> step [] st (log_to lines st).
Proof.
  intros Hwf. destruct st as [this rt].
  split; [exact Hwf|]. split; [|done].
  exists []. unfold pending; simpl. by rewrite !app_nil_r.
Qed.

Lemma step_push_data row st : wf st -> step [row] st (snd (push_data row st)).
Proof.
  intros [Hv Hs]. pose proof (push_data_pending row st Hv) as Hp.
  destruct st as [this rt]. unfold valid in Hv. simpl in *.
  split; [|split].
  - split; [unfold valid; simpl; by rewrite length_insert|]. simpl.
    eapply Forall_impl; [exact Hs|]. intros e [? ?]. by rewrite length_insert.
  - exists []. simpl. by rewrite app_nil_r.
  - intros e He. simpl. apply deref_insert_ne.
    rewrite Forall_forall in Hs. destruct (Hs e He) as [_ Hne]. congruence.
Qed.

Lemma step_flush fe st : wf st -> step [] st (snd (flush fe st)).
Proof.
  intros [Hv Hs]. destruct (decide (pending st = [])) as [He|Hne].
  - rewrite flush_empty by done. destruct st as [this rt].
    split; [by split|]. split; [|done].
    exists []. unfold pending; simpl. by rewrite !app_nil_r.
  - rewrite flush_nonempty by done. destruct st as [this rt].
    unfold valid, pending in *. simpl in *.
    split; [|split].
    + split; [unfold valid; simpl; rewrite length_app; simpl; lia|]. simpl.
      apply Forall_app. split.
      * eapply Forall_impl; [exact Hs|]. intros e [? ?].
        rewrite length_app. simpl. lia.
      * apply Forall_singleton. simpl. rewrite length_app. simpl. lia.
    + eexists [_]. split; [reflexivity|]. unfold batches, pending; simpl.
      rewrite deref_fresh, deref_app_l by done. by rewrite !app_nil_r.
    + intros e He. simpl. apply deref_app_l.
      rewrite Forall_forall in Hs. by destruct (Hs e He).
Qed.

Lemma step_pushRow fe row st : wf st -> step [row] st (snd (_pushRow fe row st)).
Proof.
  intros Hwf. pose proof (step_push_data row st Hwf) as H1.
  rewrite pushRow_eq. destruct (Z.geb _ _); [|exact H1].
  change [row] with ([row] ++ []). eapply step_trans; [exact H1|].
  apply step_flush. by destruct H1.
Qed.

Lemma step_flushIfLate now fe st : wf st -> step [] st (snd (flushIfLate now fe st)).
Proof.
  intros Hwf. unfold flushIfLate, flushIfLate_try, try_catch.
  destruct (Z.geb _ _); [|by apply step_refl].
  pose proof (step_flush fe st Hwf) as H1.
  destruct (flush fe st) as [[[]|e] st']; [exact H1|].
  rewrite unexpected_eq. change (@nil TableRow.t) with (@nil TableRow.t ++ []).
  eapply step_trans; [exact H1|]. apply step_log_to. by destruct H1.
Qed.

Lemma step_insert_callback error insertErrors st :
  wf st -> step [] st (snd (insert_callback error insertErrors st)).
Proof.
  intros Hwf. unfold insert_callback, bind, ret.
  destruct error as [e1|], insertErrors as [e2|];
    cbv beta iota; rewrite ?console_log_eq; cbv beta iota;
    rewrite ?console_log_eq; cbn [snd].
  - change (@nil TableRow.t) with (@nil TableRow.t ++ []).
    eapply step_trans; [by apply step_log_to|].
    apply step_log_to. by apply step_log_to.
  - by apply step_log_to.
  - by apply step_log_to.
  - by apply step_refl.
Qed.

Lemma step_set_serverTimeOffset n st :
  wf st -> step [] st (snd (set_serverTimeOffset n st)).
Proof.
  intros Hwf. destruct st as [this rt].
  split; [exact Hwf|]. split; [|done].
  exists []. unfold pending; simpl. by rewrite !app_nil_r.
Qed.

(** What [classified] names is what the body of [try] pushes. *)
Lemma collectLog_try_classified now fe message st :
  match classified now message st with
  | Some row => _collectLog_try now fe message st = _pushRow fe row st
  | None =>
      exists lines n,
        snd (_collectLog_try now fe message st) = log_to lines st
        \/ snd (_collectLog_try now fe message st)
           = snd (set_serverTimeOffset n st)
  end.
Proof.
  unfold classified.
  destruct (js_match message LOG_REGEX) as [match_|] eqn:EL.
  - destruct (collectLog_try_record now fe message st match_ EL)
      as (prefix & value & -> & -> & ->).
    unfold bind.
    destruct (parsed_cases prefix value st) as (o & lines & Hp & Hl).
    fold (parsed prefix value st). rewrite Hp. cbn [fst].
    destruct o as [[row|]|e].
    + rewrite (Hl row eq_refl), log_to_nil. reflexivity.
    + exists lines, NaN. by left.
    + exists lines, NaN. by left.
  - rewrite collectLog_try_other by done.
    destruct (js_match message TIME_OFFSET_REGEX) as [match_|].
    + exists [], (parseInt (group match_ 1)). by right.
    + exists [], NaN. left. by rewrite log_to_nil.
Qed.

Lemma step_collectLog now fe message st :
  wf st ->
  step (pushed_by (Collect now fe message) st) st
    (snd (_collectLog now fe message st)).
Proof.
  intros Hwf. unfold _collectLog.
  destruct (try_catch_unexpected (_collectLog_try now fe message) st) as (lines & -> & _).
  cbn [snd pushed_by].
  assert (step (match classified now message st with
                | Some row => [row]
                | None => []
                end) st (snd (_collectLog_try now fe message st))) as H1.
  { pose proof (collectLog_try_classified now fe message st) as Hc.
    destruct (classified now message st) as [row|].
    - rewrite Hc. by apply step_pushRow.
    - destruct Hc as (lines' & n & [-> | ->]).
      + by apply step_log_to.
      + by apply step_set_serverTimeOffset. }
  rewrite <- (app_nil_r (match classified now message st with
                         | Some row => [row]
                         | None => []
                         end)).
  eapply step_trans; [exact H1|]. apply step_log_to. by destruct H1.
Qed.

Lemma step_run_call c st : wf st -> step (pushed_by c st) st (snd (run_call c st)).
Proof.
  destruct c; simpl.
  - apply step_collectLog.
  - apply step_pushRow.
  - apply step_flush.
  - apply step_flushIfLate.
  - apply step_insert_callback.
Qed.

Lemma step_run cs : forall st, wf st -> step (pushed cs st) st (run cs st).
Proof.
  induction cs as [|c cs IH]; intros st Hwf; [by apply step_refl|].
  simpl. pose proof (step_run_call c st Hwf) as H1.
  eapply step_trans; [exact H1|]. apply IH. by destruct H1.
Qed.

(** A new instance is well formed when the runtime it joins is. *)
Lemma new_BandwidthCollector_wf options rt :
  Forall (fun e => (snd e < length (heap rt))%nat) (bigquery rt) ->
  wf (new_BandwidthCollector options rt).
Proof.
  intros H. unfold new_BandwidthCollector, wf, valid; simpl.
  rewrite length_app; simpl. split; [lia|].
  eapply Forall_impl; [exact H|]. intros e ?; simpl in *. lia.
Qed.

(** Every state an instance reaches from its construction is well formed. *)
Lemma reachable_wf options cs : wf (run cs (new_BandwidthCollector options loaded)).
Proof.
  pose proof (step_run cs (new_BandwidthCollector options loaded)) as H.
  destruct H as [Hwf _]; [|exact Hwf].
  apply new_BandwidthCollector_wf. constructor.
Qed.

(** C1: a [flush] with rows pending first takes the array and resets the
    instance (new empty array, running size 0), and only then calls the
    sink, in the state already reset.  The array the sink receives holds
    exactly the rows that were pending, in order.  Whatever calls follow,
    that array stays as it was handed over, and every row pushed after the
    reset is pending or in an array handed over later, in the order of the
    pushes. *)
Theorem flush_resets_before_handing_over fe st cs :
  wf st ->
  pending st <> [] ->
  let o := _options (fst st) in
  let name := tableName o (new_Date fe) in
  let batch := _data (fst st) in
  let taken := _takeData (snd (set_lastFlushTimestamp (Date_now fe) st)) in
  let st' := snd (flush fe st) in
  (fst taken = Normal batch
   /\ pending (snd taken) = []
   /\ _dataSize (fst (snd taken)) = 0
   /\ flush fe st
      = table_insert fe (datasetId o) name batch
          (log_to [flushing_line (length (pending st)) name] (snd taken)))
  /\ (bigquery (snd st') = bigquery (snd st) ++ [(datasetId o, name, batch)]
      /\ deref (heap (snd st')) batch = pending st
      /\ pending st' = []
      /\ _dataSize (fst st') = 0)
  /\ (deref (heap (snd (run cs st'))) batch = pending st
      /\ exists later,
           bigquery (snd (run cs st')) = bigquery (snd st') ++ later
           /\ batches (heap (snd (run cs st'))) later ++ pending (run cs st')
              = pushed cs st').
Proof.
  intros Hwf Hne o name batch taken st'.
  pose proof (flush_nonempty fe st Hne) as Hf. fold o name batch taken in Hf.
  pose proof (deref_nonempty _ _ Hne) as Hv.
  assert (bigquery (snd st') = bigquery (snd st) ++ [(datasetId o, name, batch)]) as Hb.
  { subst st'. rewrite flush_bigquery. unfold pending in Hne |- *.
    by destruct (deref _ _). }
  assert (deref (heap (snd st')) batch = pending st) as Hd.
  { subst st'. by rewrite flush_heap. }
  assert (pending st' = []) as Hp by apply flush_pending.
  split; [|split].
  - repeat split; [| | |exact Hf]; subst taken batch; destruct st as [this rt].
    + done.
    + unfold pending; simpl. apply deref_fresh.
    + done.
  - repeat split; try done. by apply flush_dataSize.
  - pose proof (step_flush fe st Hwf) as (Hwf' & _ & _). fold st' in Hwf'.
    pose proof (step_run cs st' Hwf') as (_ & (later & Hl & Hc) & Hk).
    split.
    + rewrite <- Hd. apply (Hk (datasetId o, name, batch)).
      rewrite Hb. apply elem_of_app. right. apply list_elem_of_here.
    + exists later. split; [exact Hl|]. by rewrite Hc, Hp.
Qed.

Lemma flush_resets_before_handing_over_witness :
  wf ex_pending
  /\ pending ex_pending = [ex_row 40; ex_row 41]
  /\ deref (heap (snd (run ex_calls (snd (flush (ex_env 700) ex_pending)))))
       (_data (fst ex_pending))
     = [ex_row 40; ex_row 41]
  /\ length (pushed ex_calls (snd (flush (ex_env 700) ex_pending))) = 3%nat
  /\ pending (run ex_calls (snd (flush (ex_env 700) ex_pending))) = [ex_row 62].
Proof.
  assert (wf ex_pending) as Hwf.
  { split; [vm_compute; lia | vm_compute; constructor]. }
  assert (pending ex_pending <> []) as Hne by (vm_compute; discriminate).
  split; [exact Hwf|]. split; [vm_compute; reflexivity|]. split.
  - exact (proj1 (proj2 (proj2
      (flush_resets_before_handing_over (ex_env 700) ex_pending ex_calls Hwf Hne)))).
  - split; vm_compute; reflexivity.
Defined.

(** *** Paths and sizes of the rows *)

(** C3, what the code does: the path of every row [_collectLog] appends is
    not empty.  For a read row it starts with [/].  For a write row it is
    the protocol path, or, for the actions [m] and [p], group 3 of
    [WRITE_REGEX] exactly as the line has it. *)
Theorem event_path_shape now fe message st row :
  valid st ->
  deref (heap (snd (snd (_collectLog now fe message st)))) (_data (fst st))
  = pending st ++ [row] ->
  TableRow.path row <> []
  /\ ((TableRow.op row = js "r" /\ exists p, TableRow.path row = 47%N :: p)
      \/ (TableRow.op row = js "w"
          /\ (TableRow.path row = PROTOCOL_PATH
              \/ exists match_ value details,
                   js_match message LOG_REGEX = Some match_
                   /\ group match_ 2 = Some value
                   /\ js_match value WRITE_REGEX = Some details
                   /\ (is_lit (group details 1) "m" || is_lit (group details 1) "p") = true
                   /\ group details 3 = Some (TableRow.path row)))).
Proof.
  intros Hv H.
  apply collectLog_event in H as (match_ & prefix & value & row0 & HL & H1 & H2 & Hp & ->);
    [|done].
  destruct (stamp_fields now st row0) as (-> & _ & -> & _).
  apply parsed_row in Hp as [(details & _ & Hop & _ & p & Hpath)
                            |(details & HW & Hop & _ & Hne & Hpath)].
  - split; [by rewrite Hpath|]. left. split; [done | by exists p].
  - split; [done|]. right. split; [done|].
    destruct Hpath as [Hpath|[Ha H3]]; [by left|].
    right. by exists match_, value, details.
Qed.

(** A write with action [p] whose path field starts with [/]. *)
Lemma event_path_shape_witness :
  valid ex_fresh
  /\ exists row,
       deref
         (heap (snd (snd (_collectLog 1000 (ex_env 1000)
                            (jsq "p:1: {'r':4,'a':'p','b':{'p':'/users/42','d':{'age':7}}}")
                            ex_fresh))))
         (_data (fst ex_fresh))
       = pending ex_fresh ++ [row]
       /\ TableRow.path row = js "/users/42"
       /\ TableRow.path row <> [].
Proof.
  assert (valid ex_fresh) as Hv by (vm_compute; lia).
  split; [exact Hv|].
  eexists. split; [vm_compute; reflexivity|]. split; [vm_compute; reflexivity|].
  exact (proj1 (event_path_shape 1000 (ex_env 1000)
                  (jsq "p:1: {'r':4,'a':'p','b':{'p':'/users/42','d':{'age':7}}}")
                  ex_fresh _ Hv ltac:(vm_compute; reflexivity))).
Defined.

(** C3 as stated fails: this line is a write with action [p] whose path
    field does not start with [/]; the row it appends has that path. *)
Lemma event_path_starts_with_slash_counterexample :
  valid ex_fresh
  /\ pending ex_fresh = []
  /\ exists row,
       pending (snd (_collectLog 1000 (ex_env 1000)
                       (jsq "p:1: {'r':4,'a':'p','b':{'p':'users/42','d':{'age':7}}}")
                       ex_fresh))
       = [row]
       /\ TableRow.path row = js "users/42"
       /\ ~ exists p, TableRow.path row = 47%N :: p.
Proof.
  split; [vm_compute; lia|]. split; [vm_compute; reflexivity|].
  eexists. split; [vm_compute; reflexivity|]. split; [vm_compute; reflexivity|].
  intros [p Hp]. vm_compute in Hp. discriminate.
Qed.

(** C4: a row [_collectLog] appends comes from a line [LOG_REGEX] matches,
    with payload segment [value] (group 2).  A write row has size
    [length value + 16].  A read row has size [length value + 16], plus
    [7 + length code] exactly when the code [READ_REGEX] captures is not
    empty, for the origin [from server:] as well; so its size is the one
    the specification gives, with an empty message type for that origin,
    only when the origin is the other one or the code is empty. *)
Theorem event_size now fe message st row :
  valid st ->
  deref (heap (snd (snd (_collectLog now fe message st)))) (_data (fst st))
  = pending st ++ [row] ->
  exists match_ prefix value,
    js_match message LOG_REGEX = Some match_
    /\ group match_ 1 = Some prefix /\ group match_ 2 = Some value
    /\ ((TableRow.op row = js "r"
         /\ exists details code,
              js_match prefix READ_REGEX = Some details
              /\ group details 2 = Some code
              /\ TableRow.size row
                 = Z.of_nat (length value) + 16
                   + (if truthy code then 7 + Z.of_nat (length code) else 0)
              /\ (TableRow.size row = spec_read_size value details
                  <-> group details 1 = Some (js "handleServerMessage")
                      \/ code = []))
        \/ (TableRow.op row = js "w"
            /\ TableRow.size row = Z.of_nat (length value) + 16)).
Proof.
  intros Hv H.
  apply collectLog_event in H as (match_ & prefix & value & row0 & HL & H1 & H2 & Hp & ->);
    [|done].
  exists match_, prefix, value. do 3 (split; [done|]).
  destruct (stamp_fields now st row0) as (-> & -> & _ & _).
  apply parsed_row in Hp as [(details & HR & Hop & Hsize & _)
                            |(details & _ & Hop & Hsize & _)].
  - left. split; [done|].
    destruct (READ_REGEX_groups _ _ HR) as (code & Ho & Hc & _).
    exists details, code. do 2 (split; [done|]).
    assert (read_messageType details = Some code) as Hm.
    { unfold read_messageType. by destruct Ho as [-> | ->]. }
    rewrite Hsize, Hm. unfold read_size, spec_read_size, spec_messageType.
    split; [done|]. rewrite Hc.
    destruct Ho as [-> | ->].
    + change (is_lit (Some (js "from server:")) "from server:") with true.
      cbv iota. destruct code as [|x code]; simpl.
      * split; [by right|done].
      * split; [lia|]. by intros [?|?].
    + change (is_lit (Some (js "handleServerMessage")) "from server:") with false.
      cbv iota. split; [by left|].
      intros _. by destruct code.
  - right. by split.
Qed.

(** A read with the origin [from server:] and the code [d]: the row has
    8 bytes more than the 11 + 16 of the specification.  A write. *)
Lemma event_size_witness :
  valid ex_fresh
  /\ (exists match_ prefix value,
        js_match (jsq "p:3: from server: d{'p':'a/b'}") LOG_REGEX = Some match_
        /\ group match_ 1 = Some prefix /\ group match_ 2 = Some value
        /\ ((js "r" = js "r"
             /\ exists details code,
                  js_match prefix READ_REGEX = Some details
                  /\ group details 2 = Some code
                  /\ 35 = Z.of_nat (length value) + 16
                          + (if truthy code then 7 + Z.of_nat (length code) else 0)
                  /\ (35 = spec_read_size value details
                      <-> group details 1 = Some (js "handleServerMessage")
                          \/ code = []))
            \/ (js "r" = js "w" /\ 35 = Z.of_nat (length value) + 16)))
  /\ (exists match_ prefix value,
        js_match (jsq "p:1: {'r':4,'a':'p','b':{'p':'/users/42','d':{'age':7}}}")
          LOG_REGEX = Some match_
        /\ group match_ 1 = Some prefix /\ group match_ 2 = Some value
        /\ ((js "w" = js "r"
             /\ exists details code,
                  js_match prefix READ_REGEX = Some details
                  /\ group details 2 = Some code
                  /\ 67 = Z.of_nat (length value) + 16
                          + (if truthy code then 7 + Z.of_nat (length code) else 0)
                  /\ (67 = spec_read_size value details
                      <-> group details 1 = Some (js "handleServerMessage")
                          \/ code = []))
            \/ (js "w" = js "w" /\ 67 = Z.of_nat (length value) + 16))).
Proof.
  assert (valid ex_fresh) as Hv by (vm_compute; lia).
  split; [exact Hv|]. split.
  - exact (event_size 1000 (ex_env 1000)
             (jsq "p:3: from server: d{'p':'a/b'}") ex_fresh
             {| TableRow.op := js "r"; TableRow.size := 35; TableRow.path := js "/a/b";
                TableRow.time := Some (add_div_1000 1000 (Number false 0));
                TableRow.tag := Some (js "web") |}
             Hv ltac:(vm_compute; reflexivity)).
  - exact (event_size 1000 (ex_env 1000)
             (jsq "p:1: {'r':4,'a':'p','b':{'p':'/users/42','d':{'age':7}}}") ex_fresh
             {| TableRow.op := js "w"; TableRow.size := 67; TableRow.path := js "/users/42";
                TableRow.time := Some (add_div_1000 1000 (Number false 0));
                TableRow.tag := Some (js "web") |}
             Hv ltac:(vm_compute; reflexivity)).
Defined.

(** At the line of the witness the specification gives 27 and the code
    stores 35. *)
Example from_server_size :
  exists details row,
    js_match (js "from server: d") READ_REGEX = Some details
    /\ spec_messageType details = Some []
    /\ spec_read_size (jsq "{'p':'a/b'}") details = 27
    /\ pending (snd (_collectLog 1000 (ex_env 1000)
                       (jsq "p:3: from server: d{'p':'a/b'}") ex_fresh)) = [row]
    /\ TableRow.size row = 35.
Proof. eexists _, _. repeat split; vm_compute; reflexivity. Qed.

(** *** The clock offset *)

(** A line cannot be both a log record and a server-time-offset line. *)
Lemma TIME_OFFSET_not_LOG message match_ :
  js_match message TIME_OFFSET_REGEX = Some match_ ->
  js_match message LOG_REGEX = None.
Proof.
  intros H. destruct (js_match message LOG_REGEX) as [m'|] eqn:EL; [|done].
  apply LOG_REGEX_groups in EL as (d & ds & prefix & body & rest & E & _).
  apply js_match_sound in H as (u & s' & c' & HM & _).
  unfold TIME_OFFSET_REGEX in HM.
  apply Match_cat in HM as (s1 & c1 & H1 & _). apply Match_lit in H1 as [E1 _].
  rewrite E in E1. apply (f_equal (hd 0%N)) in E1. vm_compute in E1. discriminate.
Qed.

Lemma valid_log_to lines st : valid st -> valid (log_to lines st).
Proof. by destruct st as [this rt]. Qed.

(** Every line keeps the instance valid; a line that is not a
    server-time-offset line keeps the clock offset. *)
Lemma collectLog_state now fe message st :
  (valid st -> valid (snd (_collectLog now fe message st)))
  /\ (js_match message TIME_OFFSET_REGEX = None ->
      serverTimeOffset (snd (snd (_collectLog now fe message st)))
      = serverTimeOffset (snd st)).
Proof.
  unfold _collectLog.
  destruct (try_catch_unexpected (_collectLog_try now fe message) st) as (lines & -> & _).
  cbn [snd].
  enough ((valid st -> valid (snd (_collectLog_try now fe message st)))
          /\ (js_match message TIME_OFFSET_REGEX = None ->
              serverTimeOffset (snd (snd (_collectLog_try now fe message st)))
              = serverTimeOffset (snd st))) as [Hv Ho].
  { split; [intros H; by apply valid_log_to, Hv | exact Ho]. }
  destruct (js_match message LOG_REGEX) as [match_|] eqn:EL.
  - destruct (collectLog_try_record now fe message st match_ EL)
      as (prefix & value & _ & _ & ->).
    unfold bind. fold (parsed prefix value st).
    destruct (parsed_cases prefix value st) as (o & lines' & -> & _).
    destruct o as [[row|]|e]; simpl.
    + split; [intros H; by apply pushRow_valid, valid_log_to|].
      intros _. rewrite pushRow_offset. by destruct st as [this rt].
    + split; [apply valid_log_to | by destruct st as [this rt]].
    + split; [apply valid_log_to | by destruct st as [this rt]].
  - rewrite collectLog_try_other by done.
    destruct (js_match message TIME_OFFSET_REGEX); [|done].
    split; [by destruct st as [this rt] | done].
Qed.

Lemma insert_callback_eq error insertErrors st :
  exists lines, insert_callback error insertErrors st = (Normal tt, log_to lines st).
Proof.
  unfold insert_callback, bind, ret.
  destruct error as [e1|], insertErrors as [e2|];
    cbv beta iota; rewrite ?console_log_eq; cbv beta iota;
    rewrite ?console_log_eq.
  - eexists [_; _]. destruct st as [this rt]. unfold log_to; simpl.
    by rewrite <- app_assoc.
  - by eexists [_].
  - by eexists [_].
  - exists []. by rewrite log_to_nil.
Qed.

(** Every call keeps the instance valid; a call that is not a
    server-time-offset line keeps the clock offset. *)
Lemma run_call_state c st :
  (valid st -> valid (snd (run_call c st)))
  /\ (keeps_offset c ->
      serverTimeOffset (snd (snd (run_call c st))) = serverTimeOffset (snd st)).
Proof.
  destruct c as [now fe message|fe row|fe|now fe|e1 e2]; simpl.
  - apply collectLog_state.
  - split; [apply pushRow_valid | intros _; apply pushRow_offset].
  - split; [apply flush_valid | intros _; apply flush_offset].
  - rewrite flushIfLate_eq. destruct (Z.ltb _ _); [done|].
    destruct (try_catch_unexpected (flush fe) st) as (lines & -> & _).
    split; [intros H; by apply valid_log_to, flush_valid|].
    intros _. simpl. apply flush_offset.
  - destruct (insert_callback_eq e1 e2 st) as (lines & ->).
    split; [apply valid_log_to | done].
Qed.

Lemma run_state cs : forall st,
  Forall keeps_offset cs ->
  valid st ->
  valid (run cs st)
  /\ serverTimeOffset (snd (run cs st)) = serverTimeOffset (snd st).
Proof.
  induction cs as [|c cs IH]; intros st HF Hv; [done|].
  apply Forall_cons in HF as [H1 HF]. simpl.
  destruct (run_call_state c st) as [Hv' Ho].
  destruct (IH _ HF (Hv' Hv)) as [Hv2 Ho2].
  split; [exact Hv2|]. by rewrite Ho2, Ho.
Qed.

(** C6: a server-time-offset line sets the shared clock offset to the
    number [parseInt] gives for the signed integer the line writes,
    whatever the offset was, and changes nothing else.  That number is the
    integer itself when its magnitude is below 2^53, and the double
    nearest to it otherwise.  From then on, across any calls that are not
    server-time-offset lines, every row [_collectLog] appends has the time
    [(now + offset) / 1000] in double arithmetic, [now] being the reading
    of [Date.now()] at that line; the sum is the sum of the integers when
    it and its terms are below 2^53 in magnitude. *)
Theorem offset_line_sets_clock_offset now0 fe0 line match_ st :
  valid st ->
  js_match line TIME_OFFSET_REGEX = Some match_ ->
  exists negative n,
    signed_decimal (group match_ 1) = Some (negative, n)
    /\ _collectLog now0 fe0 line st
       = (Normal tt,
          (fst st,
           {| lastFlushTimestamp := lastFlushTimestamp (snd st);
              serverTimeOffset := Number negative n;
              heap := heap (snd st);
              console := console (snd st);
              bigquery := bigquery (snd st) |}))
    /\ (Z.abs n < 2 ^ 53 -> to_Z (Number negative n) = Some n)
    /\ forall between now fe message row,
         Forall keeps_offset between ->
         let st2 := run between (snd (_collectLog now0 fe0 line st)) in
         deref (heap (snd (snd (_collectLog now fe message st2)))) (_data (fst st2))
         = pending st2 ++ [row] ->
         TableRow.time row
         = Some (div (add (Number false now) (Number negative n)) (Number false 1000))
         /\ (Z.abs n < 2 ^ 53 -> Z.abs now < 2 ^ 53 -> Z.abs (now + n) < 2 ^ 53 ->
             TableRow.time row
             = Some (div (Number false (now + n)) (Number false 1000))).
Proof.
  intros Hv H.
  pose proof (TIME_OFFSET_not_LOG _ _ H) as HL.
  destruct (TIME_OFFSET_REGEX_group _ _ H) as (sign & d & ds & Hg & Hs & Hd & _).
  destruct (parseInt_numeral sign d ds Hs Hd) as (v & _ & Hsd & Hn).
  rewrite <- Hg in Hn, Hsd.
  exists (truthy sign), (if truthy sign then - v else v).
  set (n := if truthy sign then - v else v) in *.
  assert (_collectLog now0 fe0 line st
          = (Normal tt,
             (fst st,
              {| lastFlushTimestamp := lastFlushTimestamp (snd st);
                 serverTimeOffset := Number (truthy sign) n;
                 heap := heap (snd st);
                 console := console (snd st);
                 bigquery := bigquery (snd st) |}))) as Hc.
  { unfold _collectLog, try_catch. rewrite collectLog_try_other by done.
    rewrite H, Hn. by destruct st as [this rt]. }
  split; [exact Hsd|]. split; [exact Hc|]. split; [apply to_Z_Number|].
  intros between now fe message row HF st2 Hrow.
  assert (valid (snd (_collectLog now0 fe0 line st))) as Hv1
    by (rewrite Hc; by destruct st as [this rt]).
  destruct (run_state between _ HF Hv1) as [Hv2 Ho2]. fold st2 in Hv2, Ho2.
  apply collectLog_event in Hrow as (_ & _ & _ & row0 & _ & _ & _ & _ & ->); [|done].
  destruct (stamp_fields now st2 row0) as (_ & _ & _ & ->).
  rewrite Ho2, Hc. split; [reflexivity|].
  intros Hn1 Hn2 Hn3. unfold add_div_1000. simpl serverTimeOffset.
  by rewrite add_Number.
Qed.

(** The offset is 5; a line sets it to -42; a write, a tick and a line of
    no interest follow; the row of the next read, at 7000, has the time
    (7000 - 42) / 1000. *)
Lemma offset_line_sets_clock_offset_witness :
  valid ex_offset_5
  /\ serverTimeOffset (snd ex_offset_5) = Number false 5
  /\ serverTimeOffset (snd (snd (_collectLog 20 (ex_env 20) ex_offset_line ex_offset_5)))
     = Number true (-42)
  /\ to_Z (Number true (-42)) = Some (-42)
  /\ exists row,
       deref
         (heap (snd (snd (_collectLog 7000 (ex_env 7000) ex_read_line
                            (run ex_between
                               (snd (_collectLog 20 (ex_env 20) ex_offset_line
                                       ex_offset_5)))))))
         (_data (fst (run ex_between
                        (snd (_collectLog 20 (ex_env 20) ex_offset_line ex_offset_5)))))
       = pending (run ex_between
                    (snd (_collectLog 20 (ex_env 20) ex_offset_line ex_offset_5)))
         ++ [row]
       /\ TableRow.time row
          = Some (div (Number false (7000 + -42)) (Number false 1000)).
Proof.
  assert (valid ex_offset_5) as Hv by (vm_compute; lia).
  split; [exact Hv|]. split; [vm_compute; reflexivity|].
  split; [vm_compute; reflexivity|].
  destruct (offset_line_sets_clock_offset 20 (ex_env 20) ex_offset_line
              [Some ex_offset_line; Some (js "-42")]
              ex_offset_5 Hv ltac:(vm_compute; reflexivity))
    as (negative & n & Hn & _ & Hz & Hrows).
  assert (negative = true /\ n = -42) as [-> ->]
    by (vm_compute in Hn; by injection Hn as <- <-).
  split; [apply Hz; vm_compute; reflexivity|].
  eexists. split; [vm_compute; reflexivity|].
  apply (Hrows ex_between 7000 (ex_env 7000) ex_read_line);
    [repeat constructor; vm_compute; reflexivity
    |vm_compute; reflexivity
    |vm_compute; reflexivity
    |vm_compute; reflexivity
    |vm_compute; reflexivity].
Defined.

(** C6 as stated fails: the integer this line writes is 2^53 + 1, and the
    clock offset after the line is 2^53. *)
Lemma offset_is_the_parsed_integer_counterexample :
  exists match_,
    js_match ex_offset_odd TIME_OFFSET_REGEX = Some match_
    /\ signed_decimal (group match_ 1) = Some (false, 9007199254740993)
    /\ to_Z (serverTimeOffset
               (snd (snd (_collectLog 20 (ex_env 20) ex_offset_odd ex_fresh))))
       = Some 9007199254740992
    /\ to_Z (serverTimeOffset
               (snd (snd (_collectLog 20 (ex_env 20) ex_offset_odd ex_fresh))))
       <> Some 9007199254740993.
Proof.
  eexists. split; [vm_compute; reflexivity|]. split; [vm_compute; reflexivity|].
  split; [vm_compute; reflexivity|]. vm_compute. discriminate.
Qed.

(** An integer of 400 digits makes the clock offset infinite, and with it
    the time of the rows that follow. *)
Example huge_offset_is_infinite :
  serverTimeOffset (snd (snd (_collectLog 20 (ex_env 20) ex_offset_huge ex_fresh)))
  = S754_infinity false
  /\ add_div_1000 7000 (S754_infinity false) = S754_infinity false.
Proof. split; vm_compute; reflexivity. Qed.

(** * More of the code *)

(** ** What every call keeps *)

Section Preservation.
Variable P : state -> Prop.
Hypothesis P_log_to : forall lines st, P st -> P (log_to lines st).
Hypothesis P_set_serverTimeOffset :
  forall n st, P st -> P (snd (set_serverTimeOffset n st)).
Hypothesis P_pushRow : forall fe row st, P st -> P (snd (_pushRow fe row st)).
Hypothesis P_flush : forall fe st, P st -> P (snd (flush fe st)).

Lemma collectLog_preserves now fe message st :
  P st -> P (snd (_collectLog now fe message st)).
Proof.
  intros H. unfold _collectLog.
  destruct (try_catch_unexpected (_collectLog_try now fe message) st) as (lines & -> & _).
  cbn [snd]. apply P_log_to.
  pose proof (collectLog_try_classified now fe message st) as Hc.
  destruct (classified now message st) as [row|].
  - rewrite Hc. by apply P_pushRow.
  - destruct Hc as (lines' & n & [-> | ->]); auto.
Qed.

Lemma run_call_preserves c st : P st -> P (snd (run_call c st)).
Proof.
  intros H. destruct c as [now fe message|fe row|fe|now fe|e1 e2]; simpl.
  - by apply collectLog_preserves.
  - by apply P_pushRow.
  - by apply P_flush.
  - rewrite flushIfLate_eq. destruct (Z.ltb _ _); [done|].
    destruct (try_catch_unexpected (flush fe) st) as (lines & -> & _).
    cbn [snd]. by apply P_log_to, P_flush.
  - destruct (insert_callback_eq e1 e2 st) as (lines & ->).
    cbn [snd]. by apply P_log_to.
Qed.

Lemma run_preserves cs : forall st, P st -> P (run cs st).
Proof.
  induction cs as [|c cs IH]; intros st H; [done|].
  simpl. by apply IH, run_call_preserves.
Qed.
End Preservation.

Lemma flush_cases fe st :
  (pending st = [] /\ flush fe st = (Normal tt, snd (set_lastFlushTimestamp (Date_now fe) st)))
  \/ (pending st <> []
      /\ flush fe st
         = table_insert fe (datasetId (_options (fst st)))
             (tableName (_options (fst st)) (new_Date fe)) (_data (fst st))
             (log_to [flushing_line (length (pending st))
                        (tableName (_options (fst st)) (new_Date fe))]
                (snd (_takeData (snd (set_lastFlushTimestamp (Date_now fe) st)))))).
Proof.
  destruct (decide (pending st = [])) as [He|Hne].
  - left. split; [done | by apply flush_empty].
  - right. split; [done | by apply flush_nonempty].
Qed.

Lemma push_data_valid row st : valid st -> valid (snd (push_data row st)).
Proof.
  destruct st as [this rt]. unfold valid; simpl. by rewrite length_insert.
Qed.

Lemma sum_sizes_snoc rows row :
  sum_sizes (rows ++ [row]) = sum_sizes rows + TableRow.size row.
Proof.
  induction rows as [|r rows IH]; simpl; [lia|]. rewrite IH. lia.
Qed.

Lemma size_inv_flush fe st : size_inv st -> size_inv (snd (flush fe st)).
Proof.
  intros [Hv Hs]. split; [by apply flush_valid|].
  rewrite flush_pending.
  destruct (flush_cases fe st) as [[He ->]|[Hne ->]].
  - destruct st as [this rt]. simpl in *. by rewrite Hs, He.
  - by destruct st as [this rt].
Qed.

Lemma size_inv_push_data row st : size_inv st -> size_inv (snd (push_data row st)).
Proof.
  intros [Hv Hs]. split; [by apply push_data_valid|].
  rewrite push_data_pending by done. rewrite sum_sizes_snoc, <- Hs.
  by destruct st as [this rt].
Qed.

Lemma size_inv_run cs st : size_inv st -> size_inv (run cs st).
Proof.
  apply run_preserves.
  - intros lines [this rt] H. exact H.
  - intros n [this rt] H. exact H.
  - intros fe row st0 H. rewrite pushRow_eq.
    destruct (Z.geb _ _); [apply size_inv_flush|]; by apply size_inv_push_data.
  - apply size_inv_flush.
Qed.

(** X1: the running size of an instance is the sum of the sizes of its
    pending rows: an instance that refers to its array and starts with
    that equality keeps it across lines, pushes, flushes, ticks and
    answers of the sink. *)
Theorem dataSize_is_sum_of_pending cs st :
  valid st ->
  _dataSize (fst st) = sum_sizes (pending st) ->
  _dataSize (fst (run cs st)) = sum_sizes (pending (run cs st)).
Proof.
  intros Hv Hs. by apply (size_inv_run cs st).
Qed.

Lemma dataSize_is_sum_of_pending_witness :
  valid ex_fresh
  /\ _dataSize (fst ex_fresh) = sum_sizes (pending ex_fresh)
  /\ _dataSize (fst (run ex_calls ex_fresh))
     = sum_sizes (pending (run ex_calls ex_fresh))
  /\ pending (run ex_calls ex_fresh) = [ex_row 62].
Proof.
  assert (valid ex_fresh) as Hv by (vm_compute; lia).
  assert (_dataSize (fst ex_fresh) = sum_sizes (pending ex_fresh)) as Hs
    by (vm_compute; reflexivity).
  split; [exact Hv|]. split; [exact Hs|].
  split; [exact (dataSize_is_sum_of_pending ex_calls ex_fresh Hv Hs)|].
  vm_compute; reflexivity.
Defined.

Lemma run_below_threshold cs st :
  valid st ->
  0 < sizeFlushThreshold (_options (fst st)) ->
  _dataSize (fst st) < sizeFlushThreshold (_options (fst st)) ->
  _options (fst (run cs st)) = _options (fst st)
  /\ _dataSize (fst (run cs st)) < sizeFlushThreshold (_options (fst st)).
Proof.
  intros Hv Hpos Hlt.
  pose (P := fun st0 : state =>
               valid st0 /\ _options (fst st0) = _options (fst st)
               /\ _dataSize (fst st0) < sizeFlushThreshold (_options (fst st))).
  assert (forall fe st0, P st0 -> P (snd (flush fe st0))) as Hflush.
  { intros fe st0 (Hv0 & Ho0 & Hb0). split; [by apply flush_valid|].
    destruct (flush_cases fe st0) as [[He ->]|[Hne ->]];
      by destruct st0 as [this rt]. }
  assert (P (run cs st)) as (_ & Ho & Hb); [|done].
  apply run_preserves; [| | |exact Hflush|done].
  - intros lines [this rt] H. exact H.
  - intros n [this rt] H. exact H.
  - intros fe row st0 (Hv0 & Ho0 & Hb0). rewrite pushRow_eq.
    destruct (Z.geb _ _) eqn:Hge.
    + pose proof (push_data_valid row st0 Hv0) as Hv1.
      pose proof (push_data_pending row st0 Hv0) as Hp1.
      split; [by apply flush_valid|].
      rewrite flush_nonempty
        by (rewrite Hp1; intros E; by apply app_eq_nil in E as [_ ?]).
      by destruct st0 as [this rt].
    + split; [by apply push_data_valid|].
      rewrite Z.geb_leb in Hge. apply Z.leb_gt in Hge.
      destruct st0 as [this rt]. simpl in *. by rewrite <- Ho0.
Qed.

(** X2: with a positive threshold, an instance whose running size is
    below the threshold is below it again after every call: no call
    returns with a threshold's worth of rows still pending.  The options
    stay as they are. *)
Theorem dataSize_stays_below_threshold cs st :
  valid st ->
  0 < sizeFlushThreshold (_options (fst st)) ->
  _dataSize (fst st) < sizeFlushThreshold (_options (fst st)) ->
  _options (fst (run cs st)) = _options (fst st)
  /\ _dataSize (fst (run cs st)) < sizeFlushThreshold (_options (fst st)).
Proof. apply run_below_threshold. Qed.

Lemma dataSize_stays_below_threshold_witness :
  valid ex_fresh
  /\ 0 < sizeFlushThreshold (_options (fst ex_fresh))
  /\ _dataSize (fst ex_fresh) < sizeFlushThreshold (_options (fst ex_fresh))
  /\ _dataSize (fst (run ex_calls ex_fresh)) = 62
  /\ _dataSize (fst (run ex_calls ex_fresh))
     < sizeFlushThreshold (_options (fst ex_fresh)).
Proof.
  assert (valid ex_fresh) as Hv by (vm_compute; lia).
  assert (0 < sizeFlushThreshold (_options (fst ex_fresh))) as Hpos
    by (vm_compute; reflexivity).
  assert (_dataSize (fst ex_fresh) < sizeFlushThreshold (_options (fst ex_fresh))) as Hlt
    by (vm_compute; reflexivity).
  split; [exact Hv|]. split; [exact Hpos|]. split; [exact Hlt|].
  split; [vm_compute; reflexivity|].
  exact (proj2 (dataSize_stays_below_threshold ex_calls ex_fresh Hv Hpos Hlt)).
Defined.

(** ** Several instances, and the arrays of the sink *)

(** X3: instances do not share their rows.  When two instances of one
    runtime refer to different arrays, no sequence of calls on the first
    changes what is pending in the second. *)
Theorem calls_leave_other_instance_alone cs a b rt :
  valid (a, rt) ->
  valid (b, rt) ->
  _data a <> _data b ->
  pending (b, snd (run cs (a, rt))) = pending (b, rt).
Proof.
  intros Ha Hb Hne.
  pose (P := fun st0 : state =>
               valid st0 /\ (_data b < length (heap (snd st0)))%nat
               /\ _data (fst st0) <> _data b
               /\ deref (heap (snd st0)) (_data b) = deref (heap rt) (_data b)).
  assert (forall fe st0, P st0 -> P (snd (flush fe st0))) as Hflush.
  { intros fe st0 (Hv0 & Hb0 & Hn0 & Hd0). unfold P.
    split; [by apply flush_valid|].
    rewrite flush_heap by done.
    destruct (flush_cases fe st0) as [[He ->]|[Hne0 ->]];
      destruct st0 as [this rt0]; simpl in *; [done|].
    rewrite length_app; simpl. repeat split; [lia | lia | done]. }
  assert (forall row st0, P st0 -> P (snd (push_data row st0))) as Hpush.
  { intros row [this rt0] (Hv0 & Hb0 & Hn0 & Hd0). unfold P, valid in *; simpl in *.
    rewrite length_insert, deref_insert_ne by done. done. }
  assert (P (run cs (a, rt))) as (_ & _ & _ & Hd); [|exact Hd].
  apply run_preserves; [| | |exact Hflush|by repeat split].
  - intros lines [this rt0] H. exact H.
  - intros n [this rt0] H. exact H.
  - intros fe row st0 H. rewrite pushRow_eq.
    destruct (Z.geb _ _); [apply Hflush|]; by apply Hpush.
Qed.

(** The second instance keeps its row while the first takes rows and
    flushes. *)
Lemma calls_leave_other_instance_alone_witness :
  valid (ex_a, ex_shared)
  /\ valid (ex_b, ex_shared)
  /\ _data ex_a <> _data ex_b
  /\ pending (ex_b, ex_shared) = [ex_row 40]
  /\ length (bigquery (snd (run ex_calls (ex_a, ex_shared)))) = 1%nat
  /\ pending (ex_b, snd (run ex_calls (ex_a, ex_shared))) = pending (ex_b, ex_shared).
Proof.
  assert (valid (ex_a, ex_shared)) as Ha by (vm_compute; lia).
  assert (valid (ex_b, ex_shared)) as Hb by (vm_compute; lia).
  assert (_data ex_a <> _data ex_b) as Hne by (vm_compute; discriminate).
  split; [exact Ha|]. split; [exact Hb|]. split; [exact Hne|].
  split; [vm_compute; reflexivity|]. split; [vm_compute; reflexivity|].
  exact (calls_leave_other_instance_alone ex_calls ex_a ex_b ex_shared Ha Hb Hne).
Defined.

Lemma handed_fresh st r :
  wf st ->
  (r ∈ handed (snd st)) ->
  (r < length (heap (snd st)))%nat /\ r <> _data (fst st).
Proof.
  intros [_ Hs] Hr. unfold handed in Hr. apply list_elem_of_fmap in Hr as (e & -> & He).
  rewrite Forall_forall in Hs. exact (Hs e He).
Qed.

(** X4: from its construction on, whatever lines, pushes, flushes, ticks
    and answers of the sink follow, an instance hands each array to the
    sink once, never the array it is filling, and the rows of the arrays
    handed over, followed by the rows pending, are the rows pushed, in the
    order of the pushes: none is lost, none is sent twice. *)
Theorem every_row_once options cs :
  let st0 := new_BandwidthCollector options loaded in
  let st := run cs st0 in
  NoDup (handed (snd st))
  /\ (_data (fst st) ∉ handed (snd st))
  /\ batches (heap (snd st)) (bigquery (snd st)) ++ pending st = pushed cs st0.
Proof.
  intros st0 st.
  assert (wf st0) as Hwf0 by (apply new_BandwidthCollector_wf; constructor).
  pose proof (step_run cs st0 Hwf0) as (Hwf & (later & Hl & Hc) & _). fold st in Hwf, Hl, Hc.
  split; [|split].
  - subst st.
    apply (run_preserves (fun st1 => wf st1 /\ NoDup (handed (snd st1))));
      [| | | |split; [done | constructor]].
    + intros lines [this rt] H. exact H.
    + intros n [this rt] H. exact H.
    + intros fe row st1 [Hwf1 Hn1].
      assert (wf (snd (push_data row st1))
              /\ NoDup (handed (snd (snd (push_data row st1))))) as H1.
      { split; [by destruct (step_push_data row st1 Hwf1)|].
        by destruct st1 as [this rt]. }
      rewrite pushRow_eq. destruct (Z.geb _ _); [|exact H1].
      destruct H1 as [Hwf2 Hn2]. split; [by destruct (step_flush fe _ Hwf2)|].
      unfold handed. rewrite flush_bigquery, fmap_app.
      destruct (pending (snd (push_data row st1))); simpl; [by rewrite app_nil_r|].
      apply NoDup_app. split; [exact Hn2|]. split; [|apply NoDup_singleton].
      intros r Hr Hr'. apply list_elem_of_singleton in Hr'. subst r.
      by destruct (handed_fresh _ _ Hwf2 Hr).
    + intros fe st1 [Hwf1 Hn1]. split; [by destruct (step_flush fe _ Hwf1)|].
      unfold handed. rewrite flush_bigquery, fmap_app.
      destruct (pending st1); simpl; [by rewrite app_nil_r|].
      apply NoDup_app. split; [exact Hn1|]. split; [|apply NoDup_singleton].
      intros r Hr Hr'. apply list_elem_of_singleton in Hr'. subst r.
      by destruct (handed_fresh _ _ Hwf1 Hr).
  - intros Hin. by destruct (handed_fresh _ _ Hwf Hin).
  - assert (bigquery (snd st0) = []) as E0 by reflexivity.
    assert (pending st0 = []) as P0 by apply deref_fresh.
    rewrite E0 in Hl. simpl in Hl. by rewrite Hl, Hc, P0.
Qed.

(** X5: [flush] lets a fault of the sink through: it throws exactly when
    rows are pending and [table.insert] throws, and then the rows are no
    longer pending; the same holds for a [_pushRow] that reaches the
    threshold. *)
Theorem flush_throws_when_sink_throws fe st e :
  (fst (flush fe st) = Throw e <-> pending st <> [] /\ insert_throws fe = Some e)
  /\ pending (snd (flush fe st)) = []
  /\ forall row,
       valid st ->
       (fst (_pushRow fe row st) = Throw e
        <-> sizeFlushThreshold (_options (fst st)) <= _dataSize (fst st) + TableRow.size row
            /\ insert_throws fe = Some e).
Proof.
  assert (forall st0, fst (flush fe st0) = Throw e
                      <-> pending st0 <> [] /\ insert_throws fe = Some e) as Hf.
  { intros st0. destruct (flush_cases fe st0) as [[He ->]|[Hne ->]].
    - simpl. split; [done | by intros [? _]].
    - destruct st0 as [this rt]. simpl.
      destruct (insert_throws fe) as [e'|]; split.
      + by intros [= ->].
      + by intros [_ [= ->]].
      + done.
      + by intros [_ ?]. }
  split; [apply Hf|]. split; [apply flush_pending|].
  intros row Hv. rewrite pushRow_eq, Z.geb_leb.
  destruct (Z.leb _ _) eqn:Hle.
  - apply Z.leb_le in Hle. rewrite Hf.
    pose proof (push_data_pending row st Hv) as Hp.
    split.
    + intros [_ Hi]. by split.
    + intros [_ Hi]. split; [|done].
      rewrite Hp. intros E. by apply app_eq_nil in E as [_ ?].
  - apply Z.leb_gt in Hle. simpl. split; [done|]. intros [? _]. lia.
Qed.

Lemma flush_throws_when_sink_throws_witness :
  valid ex_pending
  /\ fst (flush (ex_env_throwing 700) ex_pending) = Throw (SinkError "insert failed")
  /\ (fst (_pushRow (ex_env_throwing 700) (ex_row 60) ex_pending)
      = Throw (SinkError "insert failed")
      <-> sizeFlushThreshold (_options (fst ex_pending))
          <= _dataSize (fst ex_pending) + TableRow.size (ex_row 60)
          /\ insert_throws (ex_env_throwing 700) = Some (SinkError "insert failed")).
Proof.
  assert (valid ex_pending) as Hv by (vm_compute; lia).
  split; [exact Hv|]. split; [vm_compute; reflexivity|].
  exact (proj2 (proj2 (flush_throws_when_sink_throws (ex_env_throwing 700) ex_pending
                         (SinkError "insert failed"))) (ex_row 60) Hv).
Defined.

(** ** Running the patterns on lines of a known shape *)

Lemma matcher_lit {R} l (k : @cont R) s c :
  matcher (lit_codes l) k (l ++ s) c = k s c.
Proof.
  induction l as [|x l IH]; simpl; [done|]. by rewrite N.eqb_refl.
Qed.

Lemma star_stops {R} p (k : @cont R) s c : stops p s -> star p k s c = k s c.
Proof. destruct s as [|x s]; simpl; [done|]. by intros ->. Qed.

(** The longest run wins when the rest of the pattern accepts what
    follows it. *)
Lemma star_greedy {R} p (k : @cont R) u s c res :
  forallb p u = true ->
  stops p s ->
  k s c = Some res ->
  star p k (u ++ s) c = Some res.
Proof.
  intros Hu Hs Hk. induction u as [|x u IH]; simpl.
  - by rewrite star_stops.
  - simpl in Hu. apply andb_true_iff in Hu as [-> Hu]. by rewrite IH.
Qed.

Lemma plus_greedy {R} p (k : @cont R) x u s c res :
  p x = true ->
  forallb p u = true ->
  stops p s ->
  k s c = Some res ->
  matcher (Plus p) k (x :: u ++ s) c = Some res.
Proof.
  intros Hx Hu Hs Hk. simpl. rewrite Hx. by apply star_greedy.
Qed.

Lemma take_consumed_eq (s u s' : str) :
  s = u ++ s' -> take (length s - length s') s = u.
Proof. intros ->. apply take_consumed. Qed.

Ltac reassoc := repeat (cbn [app]; rewrite <- ?app_assoc); reflexivity.

Lemma LOG_REGEX_split d ds prefix body rest :
  digit d = true ->
  forallb digit ds = true ->
  forallb (not_char "{") prefix = true ->
  forallb dot body = true ->
  stops dot rest ->
  js_match (js "p:" ++ d :: ds ++ js ": " ++ prefix ++ 123%N :: body ++ rest) LOG_REGEX
  = Some [Some (js "p:" ++ d :: ds ++ js ": " ++ prefix ++ 123%N :: body);
          Some prefix; Some (123%N :: body)].
Proof.
  intros Hd Hds Hp Hb Hr.
  unfold js_match, LOG_REGEX, Lit.
  cbn [matcher]. rewrite matcher_lit.
  apply plus_greedy; [done | done | reflexivity |].
  rewrite matcher_lit.
  apply star_greedy; [done | reflexivity |].
  change (123%N :: body ++ rest) with (js "{" ++ body ++ rest).
  rewrite matcher_lit.
  apply star_greedy; [done | done |].
  rewrite (take_consumed_eq _ (js "p:" ++ d :: ds ++ js ": " ++ prefix ++ 123%N :: body) rest)
    by reassoc.
  rewrite (take_consumed_eq _ (123%N :: body) rest) by reassoc.
  rewrite (take_consumed_eq _ prefix (js "{" ++ body ++ rest)) by reassoc.
  reflexivity.
Qed.

Lemma first_some {A} (x y : option A) r :
  x = Some r ->
  match x with Some res => Some res | None => y end = Some r.
Proof. by intros ->. Qed.

Lemma READ_REGEX_handled code tail :
  forallb word code = true ->
  stops word tail ->
  js_match (js "handleServerMessage " ++ code ++ tail) READ_REGEX
  = Some [Some (js "handleServerMessage " ++ code);
          Some (js "handleServerMessage"); Some code].
Proof.
  intros Hc Ht. unfold js_match, READ_REGEX, Lit. cbn [matcher].
  match goal with
  | |- context [matcher (lit_codes (js "from server:")) ?k ?s ?c] =>
      change (matcher (lit_codes (js "from server:")) k s c) with (@None captures)
  end.
  change (js "handleServerMessage " ++ code ++ tail)
    with (js "handleServerMessage" ++ js " " ++ code ++ tail).
  rewrite matcher_lit, matcher_lit.
  apply star_greedy; [done | done |].
  rewrite (take_consumed_eq _ (js "handleServerMessage " ++ code) tail) by reassoc.
  rewrite (take_consumed_eq _ code tail) by reassoc.
  rewrite (take_consumed_eq _ (js "handleServerMessage") (js " " ++ code ++ tail))
    by reassoc.
  reflexivity.
Qed.

Lemma READ_REGEX_from_server_exact :
  js_match (js "from server: ") READ_REGEX
  = Some [Some (js "from server: "); Some (js "from server:"); Some []].
Proof. vm_compute; reflexivity. Qed.

Lemma READ_PATH_REGEX_field path rest :
  forallb not_quote path = true ->
  js_match (jsq "{'p':'" ++ path ++ quote :: rest) READ_PATH_REGEX
  = Some [Some (jsq "{'p':'" ++ path ++ [quote]); Some path].
Proof.
  intros Hp. unfold js_match, READ_PATH_REGEX, Litq. cbn [matcher].
  rewrite matcher_lit.
  apply star_greedy; [done | reflexivity |].
  change (quote :: rest) with (jsq "'" ++ rest). rewrite matcher_lit.
  rewrite (take_consumed_eq _ (jsq "{'p':'" ++ path ++ [quote]) rest) by reassoc.
  rewrite (take_consumed_eq _ path (jsq "'" ++ rest)) by reassoc.
  reflexivity.
Qed.

Lemma word_not_quote x : word x = true -> not_quote x = true.
Proof.
  unfold word, not_quote, quote. intros H.
  destruct (N.eqb x 34) eqn:E; [|done].
  apply N.eqb_eq in E. subst x. discriminate.
Qed.

Lemma WRITE_REGEX_with_field n ns a acts x path rest :
  digit n = true -> forallb digit ns = true ->
  word a = true -> forallb word acts = true ->
  not_quote x = true -> forallb not_quote path = true ->
  js_match (jsq "{'r':" ++ n :: ns ++ jsq ",'a':'" ++ a :: acts
              ++ jsq "','b':{'p':'" ++ x :: path ++ quote :: rest) WRITE_REGEX
  = Some [Some (jsq "{'r':" ++ n :: ns ++ jsq ",'a':'" ++ a :: acts
                  ++ jsq "','b':{'p':'" ++ x :: path ++ [quote]);
          Some (a :: acts); Some (jsq "'p':'" ++ x :: path); Some (x :: path)].
Proof.
  intros Hn Hns Ha Has Hx Hp. unfold js_match, WRITE_REGEX, Litq. cbn [matcher].
  rewrite matcher_lit.
  apply plus_greedy; [done | done | reflexivity |].
  rewrite matcher_lit.
  apply plus_greedy; [done | done | reflexivity |].
  change (jsq "','b':{'p':'" ++ x :: path ++ quote :: rest)
    with (jsq "','b':{" ++ jsq "'p':'" ++ x :: path ++ quote :: rest).
  rewrite matcher_lit.
  apply first_some.
  rewrite matcher_lit.
  apply plus_greedy; [done | done | reflexivity |].
  change (quote :: rest) with (jsq "'" ++ rest). rewrite matcher_lit.
  rewrite (take_consumed_eq _
             (jsq "{'r':" ++ n :: ns ++ jsq ",'a':'" ++ a :: acts
                ++ jsq "','b':{'p':'" ++ x :: path ++ [quote]) rest) by reassoc.
  rewrite (take_consumed_eq _ (jsq "'p':'" ++ x :: path) (jsq "'" ++ rest)) by reassoc.
  rewrite (take_consumed_eq _ (x :: path) (jsq "'" ++ rest)) by reassoc.
  rewrite (take_consumed_eq _ (a :: acts)
             (jsq "','b':{" ++ jsq "'p':'" ++ x :: path ++ jsq "'" ++ rest)) by reassoc.
  reflexivity.
Qed.

Lemma matcher_opt_then {R} r q (k : @cont R) s c :
  matcher (Cat (Opt r) q) k s c
  = match matcher r (matcher q k) s c with
    | Some res => Some res
    | None => matcher q k s c
    end.
Proof. reflexivity. Qed.

(** The end of [WRITE_REGEX], from the double quote after the opening
    brace of the body: it matches whatever follows the quote, and leaves
    group 1 as it was. *)
Lemma WRITE_REGEX_tail (w : str -> option str) rest (c : captures) :
  exists res,
    matcher (Cat (Opt (Group 2 (Cat (Litq "'p':'") (Group 3 (Plus not_quote)))))
               (Litq "'"))
      (fun s' c' => Some (<[0%nat := w s']> c')) (quote :: rest) c
    = Some res
    /\ res !! 1%nat = c !! 1%nat.
Proof.
  rewrite matcher_opt_then.
  destruct (matcher (Group 2 (Cat (Litq "'p':'") (Group 3 (Plus not_quote))))
              (matcher (Litq "'") (fun s' c' => Some (<[0%nat := w s']> c')))
              (quote :: rest) c) as [res|] eqn:E.
  - exists res. split; [reflexivity|].
    apply matcher_sound in E as (s1 & c1 & HM & Hk).
    apply Match_group in HM as (u2 & c2 & HM & _ & _ & ->).
    apply Match_cat in HM as (s3 & c3 & H3 & HM). apply Match_lit in H3 as [_ ->].
    apply Match_group in HM as (u4 & c4 & HM & _ & _ & ->).
    apply Match_plus in HM as (y & v & _ & _ & _ & ->).
    apply matcher_sound in Hk as (s5 & c5 & H5 & Hk). apply Match_lit in H5 as [_ ->].
    injection Hk as <-.
    by rewrite !list_lookup_insert_ne by done.
  - change (quote :: rest) with (jsq "'" ++ rest). unfold Litq.
    rewrite matcher_lit. eexists. split; [reflexivity|].
    by rewrite list_lookup_insert_ne by done.
Qed.

Lemma WRITE_REGEX_action n ns a acts rest :
  digit n = true -> forallb digit ns = true ->
  word a = true -> forallb word acts = true ->
  exists details,
    js_match (jsq "{'r':" ++ n :: ns ++ jsq ",'a':'" ++ a :: acts
                ++ jsq "','b':{" ++ quote :: rest) WRITE_REGEX
    = Some details
    /\ group details 1 = Some (a :: acts).
Proof.
  intros Hn Hns Ha Has.
  pose (line := jsq "{'r':" ++ n :: ns ++ jsq ",'a':'" ++ a :: acts
                  ++ jsq "','b':{" ++ quote :: rest).
  destruct (WRITE_REGEX_tail (fun s' => Some (take (length line - length s') line)) rest
              [None; Some (a :: acts); None; None]) as (res & Hres & H1).
  exists res. split; [|unfold group; by rewrite H1].
  unfold js_match, WRITE_REGEX.
  set (T := Cat (Opt _) (Litq "'")) in *.
  unfold Litq. cbn [matcher].
  rewrite matcher_lit.
  apply plus_greedy; [done | done | reflexivity |].
  rewrite matcher_lit.
  apply plus_greedy; [done | done | reflexivity |].
  rewrite matcher_lit.
  rewrite (take_consumed_eq _ (a :: acts) (jsq "','b':{" ++ quote :: rest)) by reassoc.
  exact Hres.
Qed.

(** ** Lines of a known shape, from the line to the row *)

Lemma str_eqb_eq a b : str_eqb a b = true <-> a = b.
Proof.
  revert b. induction a as [|x a IH]; intros [|y b]; simpl; try done.
  rewrite andb_true_iff, N.eqb_eq, IH. split; [by intros [-> ->] | by intros [= -> ->]].
Qed.

Lemma is_lit_false s lit : s <> js lit -> is_lit (Some s) lit = false.
Proof.
  intros H. unfold is_lit. destruct (str_eqb s (js lit)) eqn:E; [|done].
  by apply str_eqb_eq in E.
Qed.

Lemma digit_dot x : digit x = true -> dot x = true.
Proof.
  intros H%digit_range. unfold dot, line_terminator.
  apply negb_true_iff.
  repeat (apply orb_false_intro); apply N.eqb_neq; lia.
Qed.

Lemma forallb_digit_dot ds : forallb digit ds = true -> forallb dot ds = true.
Proof.
  induction ds as [|x ds IH]; simpl; [done|].
  intros [Hx Hds]%andb_true_iff. by rewrite (digit_dot x Hx), IH.
Qed.

Lemma collectLog_of_row now fe line st whole prefix value row :
  js_match line LOG_REGEX = Some [Some whole; Some prefix; Some value] ->
  parsed prefix value st = (Normal (Some row), st) ->
  _collectLog now fe line st
  = try_catch (_pushRow fe (stamp now st row)) unexpected st.
Proof.
  intros HL Hp. unfold _collectLog, try_catch, _collectLog_try. rewrite HL.
  cbn [group lookup list_lookup]. unfold bind.
  fold (parsed prefix value st). by rewrite Hp.
Qed.

Lemma collectLog_of_nothing now fe line st whole prefix value lines :
  js_match line LOG_REGEX = Some [Some whole; Some prefix; Some value] ->
  parsed prefix value st = (Normal None, log_to lines st) ->
  _collectLog now fe line st = (Normal tt, log_to lines st).
Proof.
  intros HL Hp. unfold _collectLog, try_catch, _collectLog_try. rewrite HL.
  cbn [group lookup list_lookup]. unfold bind.
  fold (parsed prefix value st). by rewrite Hp.
Qed.

Ltac log_split d ds prefix body tail :=
  match goal with
  | |- js_match ?l _ = _ =>
      replace l with (js "p:" ++ d :: ds ++ js ": " ++ prefix ++ 123%N :: body ++ tail)
        by reassoc
  end;
  apply (LOG_REGEX_split d ds prefix body tail); try done.

(** X6: a line of a data or child-moved message from the server, with
    its path field first in the payload, is pushed as a read row whose
    path is the field with [/] in front and whose size is the length of
    the payload up to the end of its line, plus 16, plus 8 for the
    one-letter message type. *)
Theorem read_data_line now fe st counter code path rest tail :
  counter <> [] ->
  forallb digit counter = true ->
  code = js "d" \/ code = js "m" ->
  forallb not_quote path = true ->
  forallb dot (path ++ quote :: rest) = true ->
  stops dot tail ->
  let value := jsq "{'p':'" ++ path ++ quote :: rest in
  _collectLog now fe (log_line counter (handled code) value tail) st
  = try_catch
      (_pushRow fe
         (stamp now st
            {| TableRow.op := js "r";
               TableRow.size := Z.of_nat (length value) + 16 + (7 + 1);
               TableRow.path := js "/" ++ path;
               TableRow.time := None; TableRow.tag := None |}))
      unexpected st.
Proof.
  intros Hne Hds Hcode Hpath Hdot Htail value.
  destruct counter as [|d ds]; [done|].
  apply andb_true_iff in Hds as [Hd Hds].
  eapply (collectLog_of_row _ _ _ _ _ (handled code) value).
  - unfold log_line, handled, value.
    log_split d ds (js "handleServerMessage " ++ code ++ js " ")
      (jsq "'p':'" ++ path ++ quote :: rest) tail.
    destruct Hcode as [-> | ->]; reflexivity.
  - unfold parsed, handled. change (truthy _) with true. cbv iota.
    unfold _parseReadMessage.
    rewrite (READ_REGEX_handled code (js " "))
      by (destruct Hcode as [-> | ->]; reflexivity).
    unfold value. rewrite READ_PATH_REGEX_field by done.
    destruct Hcode as [-> | ->]; reflexivity.
Qed.

Lemma read_data_line_witness :
  js "3" <> []
  /\ forallb digit (js "3") = true
  /\ forallb not_quote (js "users/42") = true
  /\ forallb dot (js "users/42" ++ quote :: jsq ",'d':7}") = true
  /\ stops dot []
  /\ _collectLog 1000 (ex_env 1000) ex_read_line ex_fresh
     = try_catch
         (_pushRow (ex_env 1000)
            (stamp 1000 ex_fresh
               {| TableRow.op := js "r";
                  TableRow.size := 22 + 16 + (7 + 1);
                  TableRow.path := js "/users/42";
                  TableRow.time := None; TableRow.tag := None |}))
         unexpected ex_fresh.
Proof.
  assert (js "3" <> []) as H1 by discriminate.
  assert (forallb digit (js "3") = true) as H2 by reflexivity.
  assert (forallb not_quote (js "users/42") = true) as H3 by reflexivity.
  assert (forallb dot (js "users/42" ++ quote :: jsq ",'d':7}") = true) as H4
    by reflexivity.
  assert (stops dot []) as H5 by exact I.
  repeat (split; [assumption|]).
  exact (read_data_line 1000 (ex_env 1000) ex_fresh (js "3") (js "d") (js "users/42")
           (jsq ",'d':7}") [] H1 H2 (or_introl eq_refl) H3 H4 H5).
Defined.

(** X7: a line of a response [from server:] is pushed as a read row with
    the protocol path and the size of the payload plus 16; a line of a
    handled message of type [sd] is pushed with the debug path and 9 more
    bytes.  Whatever the payload holds after its opening brace. *)
Theorem sentinel_read_lines now fe st counter body tail :
  counter <> [] ->
  forallb digit counter = true ->
  forallb dot body = true ->
  stops dot tail ->
  _collectLog now fe (log_line counter (js "from server: ") (123%N :: body) tail) st
  = try_catch
      (_pushRow fe
         (stamp now st
            {| TableRow.op := js "r";
               TableRow.size := Z.of_nat (length (123%N :: body)) + 16 + 0;
               TableRow.path := PROTOCOL_PATH;
               TableRow.time := None; TableRow.tag := None |}))
      unexpected st
  /\ _collectLog now fe (log_line counter (handled (js "sd")) (123%N :: body) tail) st
     = try_catch
         (_pushRow fe
            (stamp now st
               {| TableRow.op := js "r";
                  TableRow.size := Z.of_nat (length (123%N :: body)) + 16 + (7 + 2);
                  TableRow.path := DEBUG_PATH;
                  TableRow.time := None; TableRow.tag := None |}))
         unexpected st.
Proof.
  intros Hne Hds Hbody Htail.
  destruct counter as [|d ds]; [done|].
  apply andb_true_iff in Hds as [Hd Hds].
  split.
  - eapply (collectLog_of_row _ _ _ _ _ (js "from server: ") (123%N :: body)).
    + unfold log_line. log_split d ds (js "from server: ") body tail.
    + unfold parsed. change (truthy _) with true. cbv iota.
      unfold _parseReadMessage. rewrite READ_REGEX_from_server_exact. reflexivity.
  - eapply (collectLog_of_row _ _ _ _ _ (handled (js "sd")) (123%N :: body)).
    + unfold log_line, handled.
      log_split d ds (js "handleServerMessage " ++ js "sd" ++ js " ") body tail.
    + unfold parsed, handled. change (truthy _) with true. cbv iota.
      unfold _parseReadMessage.
      rewrite (READ_REGEX_handled (js "sd") (js " ")) by reflexivity.
      reflexivity.
Qed.

Lemma sentinel_read_lines_witness :
  js "12" <> []
  /\ forallb digit (js "12") = true
  /\ forallb dot (jsq "'r':3,'b':{'s':'ok'}}") = true
  /\ stops dot (js (String "010"%char "second line"))
  /\ pending (snd (_collectLog 1000 (ex_env 1000)
                     (log_line (js "12") (js "from server: ")
                        (jsq "{'r':3,'b':{'s':'ok'}}")
                        (js (String "010"%char "second line")))
                     ex_fresh))
     = [{| TableRow.op := js "r"; TableRow.size := 22 + 16;
           TableRow.path := js "/$protocol";
           TableRow.time := Some (add_div_1000 1000 (Number false 0));
           TableRow.tag := Some (js "web") |}].
Proof.
  assert (js "12" <> []) as H1 by discriminate.
  assert (forallb digit (js "12") = true) as H2 by reflexivity.
  assert (forallb dot (jsq "'r':3,'b':{'s':'ok'}}") = true) as H3 by reflexivity.
  assert (stops dot (js (String "010"%char "second line"))) as H4 by reflexivity.
  repeat (split; [assumption|]).
  change (jsq "{'r':3,'b':{'s':'ok'}}") with (123%N :: jsq "'r':3,'b':{'s':'ok'}}").
  rewrite (proj1 (sentinel_read_lines 1000 (ex_env 1000) ex_fresh (js "12")
                    (jsq "'r':3,'b':{'s':'ok'}}")
                    (js (String "010"%char "second line")) H1 H2 H3 H4)).
  vm_compute; reflexivity.
Defined.

Lemma word_not_brace x : word x = true -> not_char "{" x = true.
Proof.
  unfold not_char, is_char. intros H.
  destruct (N.eqb x (N_of_ascii "{")) eqn:E; [|done].
  apply N.eqb_eq in E. subst x. discriminate.
Qed.

Lemma forallb_word_not_brace code :
  forallb word code = true -> forallb (not_char "{") code = true.
Proof.
  induction code as [|x code IH]; simpl; [done|].
  intros [Hx Hc]%andb_true_iff. by rewrite (word_not_brace x Hx), IH.
Qed.

(** X8: a line of a handled message whose type is none of [d], [m], [sd]
    and the empty text is dropped: the console gets the line of line 68
    with the type, and nothing else changes. *)
Theorem unknown_read_type_line now fe st counter code body tail :
  counter <> [] ->
  forallb digit counter = true ->
  forallb word code = true ->
  code <> js "d" -> code <> js "m" -> code <> js "sd" -> code <> [] ->
  forallb dot body = true ->
  stops dot tail ->
  _collectLog now fe (log_line counter (handled code) (123%N :: body) tail) st
  = (Normal tt, log_to [[VStr (js "Unknown write type:"); VStr code]] st).
Proof.
  intros Hne Hds Hw Hd' Hm Hsd He Hbody Htail.
  destruct counter as [|d ds]; [done|].
  apply andb_true_iff in Hds as [Hd Hds].
  eapply (collectLog_of_nothing _ _ _ _ _ (handled code) (123%N :: body)).
  - unfold log_line, handled.
    log_split d ds (js "handleServerMessage " ++ code ++ js " ") body tail.
    change (js "handleServerMessage " ++ code ++ js " ")
      with (js "handleServerMessage " ++ (code ++ js " ")).
    rewrite !forallb_app, (forallb_word_not_brace _ Hw).
    reflexivity.
  - unfold parsed, handled. change (truthy _) with true. cbv iota.
    unfold _parseReadMessage.
    rewrite (READ_REGEX_handled code (js " ")) by done.
    change (read_messageType _) with (Some code).
    rewrite !is_lit_false by done. cbn [orb].
    unfold bind. by rewrite console_log_eq.
Qed.

Lemma unknown_read_type_line_witness :
  js "5" <> []
  /\ forallb digit (js "5") = true
  /\ forallb word (js "ac") = true
  /\ forallb dot (jsq "'s':true}") = true
  /\ stops dot []
  /\ _collectLog 1000 (ex_env 1000)
       (log_line (js "5") (handled (js "ac")) (jsq "{'s':true}") []) ex_fresh
     = (Normal tt, log_to [[VStr (js "Unknown write type:"); VStr (js "ac")]] ex_fresh).
Proof.
  assert (js "5" <> []) as H1 by discriminate.
  assert (forallb digit (js "5") = true) as H2 by reflexivity.
  assert (forallb word (js "ac") = true) as H3 by reflexivity.
  assert (forallb dot (jsq "'s':true}") = true) as H4 by reflexivity.
  assert (stops dot []) as H5 by exact I.
  repeat (split; [assumption|]).
  apply (unknown_read_type_line 1000 (ex_env 1000) ex_fresh (js "5") (js "ac")
           (jsq "'s':true}") [] H1 H2 H3); try done.
Defined.

Lemma READ_PATH_REGEX_none body :
  (forall t, body <> jsq "'p':'" ++ t) ->
  js_match (123%N :: body) READ_PATH_REGEX = None.
Proof.
  intros H. destruct (js_match (123%N :: body) READ_PATH_REGEX) as [c|] eqn:E; [|done].
  apply js_match_sound in E as (u & s' & c' & HM & _).
  unfold READ_PATH_REGEX in HM.
  apply Match_cat in HM as (s1 & c1 & H1 & _). apply Match_lit in H1 as [E1 _].
  change (jsq "{'p':'" ++ s1) with (123%N :: jsq "'p':'" ++ s1) in E1.
  injection E1 as E1. by destruct (H s1).
Qed.

(** X9: a line of a data or child-moved message whose payload does not
    begin with the path field is dropped: the console gets the line of
    line 55 with the prefix and the payload, and nothing else changes. *)
Theorem read_data_line_without_path now fe st counter code body tail :
  counter <> [] ->
  forallb digit counter = true ->
  code = js "d" \/ code = js "m" ->
  (forall t, body <> jsq "'p':'" ++ t) ->
  forallb dot body = true ->
  stops dot tail ->
  _collectLog now fe (log_line counter (handled code) (123%N :: body) tail) st
  = (Normal tt,
     log_to [[VStr (js "No path found in message:"); VStr (handled code);
              VStr (123%N :: body)]] st).
Proof.
  intros Hne Hds Hcode Hnp Hbody Htail.
  destruct counter as [|d ds]; [done|].
  apply andb_true_iff in Hds as [Hd Hds].
  eapply (collectLog_of_nothing _ _ _ _ _ (handled code) (123%N :: body)).
  - unfold log_line, handled.
    log_split d ds (js "handleServerMessage " ++ code ++ js " ") body tail.
    destruct Hcode as [-> | ->]; reflexivity.
  - unfold parsed, handled. change (truthy _) with true. cbv iota.
    unfold _parseReadMessage.
    rewrite (READ_REGEX_handled code (js " "))
      by (destruct Hcode as [-> | ->]; reflexivity).
    rewrite READ_PATH_REGEX_none by done.
    destruct st as [this rt]. destruct Hcode as [-> | ->]; reflexivity.
Qed.

Lemma read_data_line_without_path_witness :
  js "8" <> []
  /\ forallb digit (js "8") = true
  /\ (forall t, jsq "'d':7}" <> jsq "'p':'" ++ t)
  /\ forallb dot (jsq "'d':7}") = true
  /\ stops dot []
  /\ _collectLog 1000 (ex_env 1000)
       (log_line (js "8") (handled (js "m")) (jsq "{'d':7}") []) ex_fresh
     = (Normal tt,
        log_to [[VStr (js "No path found in message:"); VStr (handled (js "m"));
                 VStr (jsq "{'d':7}")]] ex_fresh).
Proof.
  assert (js "8" <> []) as H1 by discriminate.
  assert (forallb digit (js "8") = true) as H2 by reflexivity.
  assert (forall t, jsq "'d':7}" <> jsq "'p':'" ++ t) as H3
    by (intros t E; vm_compute in E; discriminate).
  assert (forallb dot (jsq "'d':7}") = true) as H4 by reflexivity.
  assert (stops dot []) as H5 by exact I.
  repeat (split; [assumption|]).
  exact (read_data_line_without_path 1000 (ex_env 1000) ex_fresh (js "8") (js "m")
           (jsq "'d':7}") [] H1 H2 (or_intror eq_refl) H3 H4 H5).
Defined.

Lemma truthy_nil : truthy [] = false.
Proof. reflexivity. Qed.

(** X10: a line of an update or a set ([m] or [p]) whose body begins with
    a non-empty path field is pushed as a write row with that path, as
    written, and the size of the payload plus 16. *)
Theorem write_path_line now fe st counter number action path rest tail :
  counter <> [] -> forallb digit counter = true ->
  number <> [] -> forallb digit number = true ->
  action = js "m" \/ action = js "p" ->
  path <> [] -> forallb not_quote path = true ->
  forallb dot (path ++ quote :: rest) = true ->
  stops dot tail ->
  let value := request number action (jsq "'p':'" ++ path ++ quote :: rest) in
  _collectLog now fe (log_line counter [] value tail) st
  = try_catch
      (_pushRow fe
         (stamp now st
            {| TableRow.op := js "w";
               TableRow.size := Z.of_nat (length value) + 16;
               TableRow.path := path;
               TableRow.time := None; TableRow.tag := None |}))
      unexpected st.
Proof.
  intros Hne Hds Hnn Hns Hact Hpe Hpath Hdot Htail value.
  pose proof (forallb_digit_dot _ Hns) as Hnd.
  destruct counter as [|d ds]; [done|].
  apply andb_true_iff in Hds as [Hd Hds].
  destruct number as [|n ns]; [done|].
  apply andb_true_iff in Hns as [Hn Hns].
  destruct path as [|x path]; [done|].
  apply andb_true_iff in Hpath as [Hx Hpath].
  eapply (collectLog_of_row _ _ _ _ _ [] value).
  - unfold log_line, value, request.
    log_split d ds (@nil N)
      (jsq "'r':" ++ n :: ns ++ jsq ",'a':'" ++ action ++ jsq "','b':{"
         ++ jsq "'p':'" ++ (x :: path) ++ quote :: rest) tail.
    change (jsq "'r':" ++ n :: ns ++ jsq ",'a':'" ++ action ++ jsq "','b':{"
              ++ jsq "'p':'" ++ (x :: path) ++ quote :: rest)
      with (jsq "'r':" ++ (n :: ns) ++ jsq ",'a':'" ++ action
              ++ jsq "','b':{'p':'" ++ (x :: path) ++ quote :: rest).
    rewrite forallb_app in Hdot. rewrite !forallb_app, Hdot.
    rewrite Hnd.
    destruct Hact as [-> | ->]; reflexivity.
  - unfold parsed. rewrite truthy_nil. unfold _parseWriteMessage.
    assert (js_match value WRITE_REGEX
            = Some [Some (jsq "{'r':" ++ n :: ns ++ jsq ",'a':'" ++ action
                            ++ jsq "','b':{'p':'" ++ x :: path ++ [quote]);
                    Some action; Some (jsq "'p':'" ++ x :: path); Some (x :: path)]) as ->.
    { unfold value, request. destruct Hact as [-> | ->].
      - replace (jsq "{'r':" ++ (n :: ns) ++ jsq ",'a':'" ++ js "m" ++ jsq "','b':{"
                   ++ jsq "'p':'" ++ (x :: path) ++ quote :: rest)
          with (jsq "{'r':" ++ n :: ns ++ jsq ",'a':'" ++ 109%N :: []
                  ++ jsq "','b':{'p':'" ++ x :: path ++ quote :: rest) by reassoc.
        by apply WRITE_REGEX_with_field.
      - replace (jsq "{'r':" ++ (n :: ns) ++ jsq ",'a':'" ++ js "p" ++ jsq "','b':{"
                   ++ jsq "'p':'" ++ (x :: path) ++ quote :: rest)
          with (jsq "{'r':" ++ n :: ns ++ jsq ",'a':'" ++ 112%N :: []
                  ++ jsq "','b':{'p':'" ++ x :: path ++ quote :: rest) by reassoc.
        by apply WRITE_REGEX_with_field. }
    destruct Hact as [-> | ->]; reflexivity.
Qed.

Lemma write_path_line_witness :
  js "1" <> [] /\ forallb digit (js "1") = true
  /\ js "4" <> [] /\ forallb digit (js "4") = true
  /\ js "/users/42" <> [] /\ forallb not_quote (js "/users/42") = true
  /\ forallb dot (js "/users/42" ++ quote :: jsq ",'d':{'age':7}}}") = true
  /\ stops dot []
  /\ _collectLog 1000 (ex_env 1000)
       (jsq "p:1: {'r':4,'a':'p','b':{'p':'/users/42','d':{'age':7}}}") ex_fresh
     = try_catch
         (_pushRow (ex_env 1000)
            (stamp 1000 ex_fresh
               {| TableRow.op := js "w"; TableRow.size := 51 + 16;
                  TableRow.path := js "/users/42";
                  TableRow.time := None; TableRow.tag := None |}))
         unexpected ex_fresh.
Proof.
  assert (js "1" <> []) as H1 by discriminate.
  assert (forallb digit (js "1") = true) as H2 by reflexivity.
  assert (js "4" <> []) as H3 by discriminate.
  assert (forallb digit (js "4") = true) as H4 by reflexivity.
  assert (js "/users/42" <> []) as H5 by discriminate.
  assert (forallb not_quote (js "/users/42") = true) as H6 by reflexivity.
  assert (forallb dot (js "/users/42" ++ quote :: jsq ",'d':{'age':7}}}") = true) as H7
    by reflexivity.
  assert (stops dot []) as H8 by exact I.
  repeat (split; [assumption|]).
  exact (write_path_line 1000 (ex_env 1000) ex_fresh (js "1") (js "4") (js "p")
           (js "/users/42") (jsq ",'d':{'age':7}}}") []
           H1 H2 H3 H4 (or_intror eq_refl) H5 H6 H7 H8).
Defined.

(** X11: a line of a listen, an unlisten, an authentication or a stats
    request ([q], [l], [n], [auth], [s]) is pushed as a write row with the
    protocol path and the size of the payload plus 16, whatever follows the
    double quote that opens the body. *)
Theorem write_protocol_line now fe st counter number action rest tail :
  counter <> [] -> forallb digit counter = true ->
  number <> [] -> forallb digit number = true ->
  In action [js "q"; js "l"; js "n"; js "auth"; js "s"] ->
  forallb dot rest = true ->
  stops dot tail ->
  let value := request number action (quote :: rest) in
  _collectLog now fe (log_line counter [] value tail) st
  = try_catch
      (_pushRow fe
         (stamp now st
            {| TableRow.op := js "w";
               TableRow.size := Z.of_nat (length value) + 16;
               TableRow.path := PROTOCOL_PATH;
               TableRow.time := None; TableRow.tag := None |}))
      unexpected st.
Proof.
  intros Hne Hds Hnn Hns Hact Hdot Htail value.
  pose proof (forallb_digit_dot _ Hns) as Hnd.
  destruct counter as [|d ds]; [done|].
  apply andb_true_iff in Hds as [Hd Hds].
  destruct number as [|n ns]; [done|].
  apply andb_true_iff in Hns as [Hn Hns].
  assert (exists a acts, action = a :: acts /\ word a = true /\ forallb word acts = true
                         /\ forallb dot action = true) as (a & acts & Ea & Ha & Has & Had).
  { simpl in Hact.
    destruct Hact as [<-|[<-|[<-|[<-|[<-|[]]]]]]; by eexists _, _. }
  eapply (collectLog_of_row _ _ _ _ _ [] value).
  - unfold log_line, value, request.
    log_split d ds (@nil N)
      (jsq "'r':" ++ (n :: ns) ++ jsq ",'a':'" ++ action ++ jsq "','b':{"
         ++ quote :: rest) tail.
    rewrite !forallb_app, Hnd, Had. cbn [forallb]. by rewrite Hdot.
  - unfold parsed. rewrite truthy_nil. unfold _parseWriteMessage.
    destruct (WRITE_REGEX_action n ns a acts rest Hn Hns Ha Has) as (details & Hm & Hg).
    rewrite <- Ea in Hg.
    assert (js_match value WRITE_REGEX = Some details) as ->.
    { rewrite <- Hm. f_equal. unfold value, request. rewrite Ea. reassoc. }
    unfold bind, ret. cbn [is_null fst snd]. rewrite Hg.
    simpl in Hact.
    destruct Hact as [<-|[<-|[<-|[<-|[<-|[]]]]]]; reflexivity.
Qed.

Lemma write_protocol_line_witness :
  js "2" <> [] /\ forallb digit (js "2") = true
  /\ js "7" <> [] /\ forallb digit (js "7") = true
  /\ In (js "q") [js "q"; js "l"; js "n"; js "auth"; js "s"]
  /\ forallb dot (jsq "p':'/users','h':''}}") = true
  /\ stops dot []
  /\ _collectLog 1000 (ex_env 1000)
       (jsq "p:2: {'r':7,'a':'q','b':{'p':'/users','h':''}}") ex_fresh
     = try_catch
         (_pushRow (ex_env 1000)
            (stamp 1000 ex_fresh
               {| TableRow.op := js "w"; TableRow.size := 41 + 16;
                  TableRow.path := js "/$protocol";
                  TableRow.time := None; TableRow.tag := None |}))
         unexpected ex_fresh.
Proof.
  assert (js "2" <> []) as H1 by discriminate.
  assert (forallb digit (js "2") = true) as H2 by reflexivity.
  assert (js "7" <> []) as H3 by discriminate.
  assert (forallb digit (js "7") = true) as H4 by reflexivity.
  assert (In (js "q") [js "q"; js "l"; js "n"; js "auth"; js "s"]) as H5
    by (left; reflexivity).
  assert (forallb dot (jsq "p':'/users','h':''}}") = true) as H6 by reflexivity.
  assert (stops dot []) as H7 by exact I.
  repeat (split; [assumption|]).
  exact (write_protocol_line 1000 (ex_env 1000) ex_fresh (js "2") (js "7") (js "q")
           (jsq "p':'/users','h':''}}") [] H1 H2 H3 H4 H5 H6 H7).
Defined.

Lemma word_dot x : word x = true -> dot x = true.
Proof.
  unfold word, dot, line_terminator. intros H.
  apply negb_true_iff.
  repeat (apply orb_false_intro); apply N.eqb_neq; intros ->; discriminate.
Qed.

Lemma forallb_word_dot code : forallb word code = true -> forallb dot code = true.
Proof.
  induction code as [|x code IH]; simpl; [done|].
  intros [Hx Hc]%andb_true_iff. by rewrite (word_dot x Hx), IH.
Qed.

(** X12: a line of a request whose action is none of [m], [p], [q], [l],
    [n], [auth] and [s] is dropped: the console gets the line of line 99
    with the action, and nothing else changes. *)
Theorem unknown_write_action_line now fe st counter number action rest tail :
  counter <> [] -> forallb digit counter = true ->
  number <> [] -> forallb digit number = true ->
  action <> [] -> forallb word action = true ->
  ~ In action [js "m"; js "p"; js "q"; js "l"; js "n"; js "auth"; js "s"] ->
  forallb dot rest = true ->
  stops dot tail ->
  _collectLog now fe
    (log_line counter [] (request number action (quote :: rest)) tail) st
  = (Normal tt, log_to [[VStr (js "Unknown write type:"); VStr action]] st).
Proof.
  intros Hne Hds Hnn Hns Hae Hw Hact Hdot Htail.
  pose proof (forallb_digit_dot _ Hns) as Hnd.
  pose proof (forallb_word_dot _ Hw) as Had.
  destruct counter as [|d ds]; [done|].
  apply andb_true_iff in Hds as [Hd Hds].
  destruct number as [|n ns]; [done|].
  apply andb_true_iff in Hns as [Hn Hns].
  destruct action as [|a acts] eqn:Ea; [done|]. rewrite <- Ea in *.
  assert (word a = true /\ forallb word acts = true) as [Ha Has].
  { rewrite Ea in Hw. simpl in Hw. by apply andb_true_iff in Hw. }
  eapply (collectLog_of_nothing _ _ _ _ _ [] (request (n :: ns) action (quote :: rest))).
  - unfold log_line, request.
    log_split d ds (@nil N)
      (jsq "'r':" ++ (n :: ns) ++ jsq ",'a':'" ++ action ++ jsq "','b':{"
         ++ quote :: rest) tail.
    rewrite !forallb_app, Hnd, Had. cbn [forallb]. by rewrite Hdot.
  - unfold parsed. rewrite truthy_nil. unfold _parseWriteMessage.
    destruct (WRITE_REGEX_action n ns a acts rest Hn Hns Ha Has) as (details & Hm & Hg).
    rewrite <- Ea in Hg.
    assert (js_match (request (n :: ns) action (quote :: rest)) WRITE_REGEX
            = Some details) as ->.
    { rewrite <- Hm. f_equal. unfold request. rewrite Ea. reassoc. }
    unfold bind, ret. cbn [is_null fst snd]. rewrite Hg.
    rewrite !is_lit_false by (intros E; apply Hact; rewrite E; simpl; tauto).
    cbn [orb]. by rewrite console_log_eq.
Qed.

Lemma unknown_write_action_line_witness :
  js "9" <> [] /\ forallb digit (js "9") = true
  /\ js "3" <> [] /\ forallb digit (js "3") = true
  /\ js "gauth" <> [] /\ forallb word (js "gauth") = true
  /\ ~ In (js "gauth") [js "m"; js "p"; js "q"; js "l"; js "n"; js "auth"; js "s"]
  /\ forallb dot (jsq "cred':'x'}}") = true
  /\ stops dot []
  /\ _collectLog 1000 (ex_env 1000)
       (jsq "p:9: {'r':3,'a':'gauth','b':{'cred':'x'}}") ex_fresh
     = (Normal tt,
        log_to [[VStr (js "Unknown write type:"); VStr (js "gauth")]] ex_fresh).
Proof.
  assert (js "9" <> []) as H1 by discriminate.
  assert (forallb digit (js "9") = true) as H2 by reflexivity.
  assert (js "3" <> []) as H3 by discriminate.
  assert (forallb digit (js "3") = true) as H4 by reflexivity.
  assert (js "gauth" <> []) as H5 by discriminate.
  assert (forallb word (js "gauth") = true) as H6 by reflexivity.
  assert (~ In (js "gauth") [js "m"; js "p"; js "q"; js "l"; js "n"; js "auth"; js "s"])
    as H7 by (simpl; intros H; repeat destruct H as [H|H]; try discriminate; done).
  assert (forallb dot (jsq "cred':'x'}}") = true) as H8 by reflexivity.
  assert (stops dot []) as H9 by exact I.
  repeat (split; [assumption|]).
  exact (unknown_write_action_line 1000 (ex_env 1000) ex_fresh (js "9") (js "3")
           (js "gauth") (jsq "cred':'x'}}") [] H1 H2 H3 H4 H5 H6 H7 H8 H9).
Defined.

(** X13: a line that starts neither with [p] nor with [e], the empty line
    among them, changes nothing: no row, no console line, no change of the
    clock offset. *)
Theorem other_lines_are_ignored now fe st line :
  head line <> Some 112%N ->
  head line <> Some 101%N ->
  _collectLog now fe line st = (Normal tt, st).
Proof.
  intros Hp He. unfold _collectLog, try_catch.
  assert (js_match line LOG_REGEX = None) as HL.
  { destruct (js_match line LOG_REGEX) as [c|] eqn:E; [|done].
    apply LOG_REGEX_groups in E as (d & ds & prefix & body & rest & -> & _).
    by destruct Hp. }
  rewrite collectLog_try_other by done.
  assert (js_match line TIME_OFFSET_REGEX = None) as ->; [|done].
  destruct (js_match line TIME_OFFSET_REGEX) as [c|] eqn:E; [|done].
  apply js_match_sound in E as (u & s' & c' & HM & _).
  unfold TIME_OFFSET_REGEX in HM.
  apply Match_cat in HM as (s1 & c1 & H1 & _). apply Match_lit in H1 as [-> _].
  by destruct He.
Qed.

Lemma other_lines_are_ignored_witness :
  head (js "c:0:1 reconnecting") <> Some 112%N
  /\ head (js "c:0:1 reconnecting") <> Some 101%N
  /\ _collectLog 1000 (ex_env 1000) (js "c:0:1 reconnecting") ex_pending
     = (Normal tt, ex_pending)
  /\ _collectLog 1000 (ex_env 1000) [] ex_pending = (Normal tt, ex_pending).
Proof.
  assert (head (js "c:0:1 reconnecting") <> Some 112%N) as H1 by discriminate.
  assert (head (js "c:0:1 reconnecting") <> Some 101%N) as H2 by discriminate.
  split; [exact H1|]. split; [exact H2|]. split.
  - exact (other_lines_are_ignored 1000 (ex_env 1000) ex_pending _ H1 H2).
  - apply other_lines_are_ignored; discriminate.
Defined.

(** ** The clock offset and the fields of a row *)

(** What a server-time-offset line does, for any instance. *)
Lemma collectLog_offset_line now fe line match_ st :
  js_match line TIME_OFFSET_REGEX = Some match_ ->
  exists negative n,
    signed_decimal (group match_ 1) = Some (negative, n)
    /\ _collectLog now fe line st
       = (Normal tt, snd (set_serverTimeOffset (Number negative n) st)).
Proof.
  intros H.
  pose proof (TIME_OFFSET_not_LOG _ _ H) as HL.
  destruct (TIME_OFFSET_REGEX_group _ _ H) as (sign & d & ds & Hg & Hs & Hd & _).
  destruct (parseInt_numeral sign d ds Hs Hd) as (v & _ & Hsd & Hn).
  rewrite <- Hg in Hn, Hsd. eexists _, _. split; [exact Hsd|].
  unfold _collectLog, try_catch. rewrite collectLog_try_other by done.
  rewrite H, Hn. by destruct st as [this rt].
Qed.

(** X14: the clock offset belongs to the runtime, not to an instance: a
    server-time-offset line that one instance receives sets the time of
    the rows every other instance appends from then on, to the quotient
    by 1000 of the sum of [Date.now()] and the number of the integer the
    line writes. *)
Theorem offset_of_one_stamps_other a b rt now0 fe0 line match_ now fe message row :
  valid (b, rt) ->
  js_match line TIME_OFFSET_REGEX = Some match_ ->
  let rt' := snd (snd (_collectLog now0 fe0 line (a, rt))) in
  deref (heap (snd (snd (_collectLog now fe message (b, rt'))))) (_data b)
  = pending (b, rt') ++ [row] ->
  exists negative n,
    signed_decimal (group match_ 1) = Some (negative, n)
    /\ TableRow.time row
       = Some (div (add (Number false now) (Number negative n)) (Number false 1000)).
Proof.
  intros Hv H rt' Hrow.
  destruct (collectLog_offset_line now0 fe0 line match_ (a, rt) H)
    as (negative & n & Hn & Hc).
  exists negative, n. split; [exact Hn|].
  assert (serverTimeOffset rt' = Number negative n /\ heap rt' = heap rt) as [Ho Hh]
    by (subst rt'; by rewrite Hc).
  apply collectLog_event in Hrow as (_ & _ & _ & row0 & _ & _ & _ & _ & ->).
  - destruct (stamp_fields now (b, rt') row0) as (_ & _ & _ & ->).
    simpl. by rewrite Ho.
  - unfold valid in *. simpl in *. by rewrite Hh.
Qed.

Lemma offset_of_one_stamps_other_witness :
  valid (ex_b, ex_shared)
  /\ serverTimeOffset ex_shared = Number false 0
  /\ exists row,
       deref
         (heap (snd (snd (_collectLog 7000 (ex_env 7000) ex_read_line
                            (ex_b, snd (snd (_collectLog 20 (ex_env 20) ex_offset_line
                                               (ex_a, ex_shared)))))))) (_data ex_b)
       = pending (ex_b, snd (snd (_collectLog 20 (ex_env 20) ex_offset_line
                                    (ex_a, ex_shared)))) ++ [row]
       /\ TableRow.time row
          = Some (div (add (Number false 7000) (Number true (-42))) (Number false 1000)).
Proof.
  assert (valid (ex_b, ex_shared)) as Hv by (vm_compute; lia).
  split; [exact Hv|]. split; [vm_compute; reflexivity|].
  eexists. split; [vm_compute; reflexivity|].
  destruct (offset_of_one_stamps_other ex_a ex_b ex_shared 20 (ex_env 20) ex_offset_line
              [Some ex_offset_line; Some (js "-42")] 7000 (ex_env 7000) ex_read_line _
              Hv ltac:(vm_compute; reflexivity) ltac:(vm_compute; reflexivity))
    as (negative & n & Hn & Ht).
  assert (negative = true /\ n = -42) as [-> ->]
    by (vm_compute in Hn; by injection Hn as <- <-).
  exact Ht.
Defined.

Lemma parsed_row_fresh prefix value st row :
  parsed prefix value st = (Normal (Some row), st) ->
  TableRow.time row = None /\ TableRow.tag row = None
  /\ TableRow.op row = (if truthy prefix then js "r" else js "w").
Proof.
  unfold parsed. destruct (truthy prefix); intros H.
  - destruct (parseRead_spec prefix value st) as (o & lines & E & Hrow).
    rewrite E in H. injection H as -> _.
    by destruct (Hrow row eq_refl) as (_ & details & _ & ? & _ & _ & ? & ?).
  - pose proof (parseWrite_spec value st) as Hs.
    destruct (js_match value WRITE_REGEX) as [details|].
    + destruct Hs as (o & lines & E & Hrow).
      rewrite E in H. injection H as -> _.
      by destruct (Hrow row eq_refl) as (_ & ? & _ & _ & _ & ? & ?).
    + destruct Hs as (msg & E). by rewrite E in H.
Qed.

(** X15: every row [_collectLog] appends is a read row when text stands
    between the packet counter and the first opening brace of the line,
    and a write row when nothing does; it carries the tag of the instance
    when that tag is a non-empty text, and no tag otherwise. *)
Theorem row_direction_and_tag now fe message st row :
  valid st ->
  deref (heap (snd (snd (_collectLog now fe message st)))) (_data (fst st))
  = pending st ++ [row] ->
  (exists match_ prefix,
     js_match message LOG_REGEX = Some match_
     /\ group match_ 1 = Some prefix
     /\ TableRow.op row = (if truthy prefix then js "r" else js "w"))
  /\ TableRow.tag row
     = (if truthy_opt (tag (_options (fst st))) then tag (_options (fst st)) else None).
Proof.
  intros Hv H.
  apply collectLog_event in H as (match_ & prefix & value & row0 & HL & H1 & H2 & Hp & ->);
    [|done].
  apply parsed_row_fresh in Hp as (_ & Htag & Hop).
  split.
  - exists match_, prefix. do 2 (split; [done|]).
    destruct (stamp_fields now st row0) as (-> & _). exact Hop.
  - unfold stamp. destruct (truthy_opt (tag (_options (fst st)))); [done|].
    exact Htag.
Qed.

Lemma row_direction_and_tag_witness :
  valid ex_fresh
  /\ exists row,
       deref (heap (snd (snd (_collectLog 1000 (ex_env 1000) ex_read_line ex_fresh))))
         (_data (fst ex_fresh))
       = pending ex_fresh ++ [row]
       /\ TableRow.tag row = Some (js "web").
Proof.
  assert (valid ex_fresh) as Hv by (vm_compute; lia).
  split; [exact Hv|]. eexists. split; [vm_compute; reflexivity|].
  exact (proj2 (row_direction_and_tag 1000 (ex_env 1000) ex_read_line ex_fresh _ Hv
                  ltac:(vm_compute; reflexivity))).
Defined.

(** X16: every row [_collectLog] appends has a size of 17 or more: the
    payload segment holds its opening brace at least. *)
Theorem row_size_at_least_17 now fe message st row :
  valid st ->
  deref (heap (snd (snd (_collectLog now fe message st)))) (_data (fst st))
  = pending st ++ [row] ->
  17 <= TableRow.size row.
Proof.
  intros Hv H.
  apply collectLog_event in H as (match_ & prefix & value & row0 & HL & H1 & H2 & Hp & ->);
    [|done].
  apply LOG_REGEX_groups in HL as (d & ds & prefix' & body & rest & _ & _ & _ & _ & _ & _ & H2').
  rewrite H2 in H2'. injection H2' as ->.
  destruct (stamp_fields now st row0) as (_ & -> & _).
  apply parsed_row in Hp as [(details & _ & _ & -> & _)|(details & _ & _ & -> & _)].
  - unfold read_size. simpl length. destruct (truthy_opt _); lia.
  - simpl length. lia.
Qed.

Lemma row_size_at_least_17_witness :
  valid ex_fresh
  /\ exists row,
       deref (heap (snd (snd (_collectLog 1000 (ex_env 1000)
                                (jsq "p:1: from server: {") ex_fresh))))
         (_data (fst ex_fresh))
       = pending ex_fresh ++ [row]
       /\ TableRow.size row = 17
       /\ 17 <= TableRow.size row.
Proof.
  assert (valid ex_fresh) as Hv by (vm_compute; lia).
  split; [exact Hv|]. eexists. split; [vm_compute; reflexivity|].
  split; [vm_compute; reflexivity|].
  exact (row_size_at_least_17 1000 (ex_env 1000) (jsq "p:1: from server: {") ex_fresh _ Hv
           ltac:(vm_compute; reflexivity)).
Defined.

Lemma run_call_offset_not_NaN c st :
  serverTimeOffset (snd st) <> NaN ->
  serverTimeOffset (snd (snd (run_call c st))) <> NaN.
Proof.
  intros Hn.
  assert (keeps_offset c -> serverTimeOffset (snd (snd (run_call c st))) <> NaN) as Hk.
  { intros Hk. by rewrite (proj2 (run_call_state c st) Hk). }
  destruct c as [now fe message|fe row|fe|now fe|e1 e2]; try (by apply Hk).
  simpl in *. destruct (js_match message TIME_OFFSET_REGEX) as [match_|] eqn:E.
  - destruct (collectLog_offset_line now fe message match_ st E)
      as (negative & n & _ & ->).
    destruct st as [this rt]. apply Number_not_NaN.
  - by apply Hk.
Qed.

(** X17: the clock offset is never [NaN].  It is zero when the module is
    loaded and, whatever the lines, a double after every call, though it
    may be infinite; so the time of every row [_collectLog] appends is not
    [NaN] either, [Date.now()] being a time value. *)
Theorem timestamps_are_numbers options cs now fe message row :
  let st := run cs (new_BandwidthCollector options loaded) in
  serverTimeOffset (snd st) <> NaN
  /\ (time_value now ->
      deref (heap (snd (snd (_collectLog now fe message st)))) (_data (fst st))
      = pending st ++ [row] ->
      exists t, TableRow.time row = Some t /\ t <> NaN).
Proof.
  intros st.
  assert (forall cs0 st0,
            valid st0 -> serverTimeOffset (snd st0) <> NaN ->
            valid (run cs0 st0) /\ serverTimeOffset (snd (run cs0 st0)) <> NaN)
    as Hrun.
  { induction cs0 as [|c cs0 IH]; intros st0 Hv Ho; [done|].
    simpl. apply IH.
    - by apply (proj1 (run_call_state c st0)).
    - by apply run_call_offset_not_NaN. }
  destruct (Hrun cs (new_BandwidthCollector options loaded)) as [Hv Hn].
  { apply new_BandwidthCollector_valid. }
  { done. }
  fold st in Hv, Hn. split; [exact Hn|].
  intros Hnow Hrow.
  apply collectLog_event in Hrow as (_ & _ & _ & row0 & _ & _ & _ & _ & ->); [|done].
  destruct (stamp_fields now st row0) as (_ & _ & _ & ->).
  eexists. split; [reflexivity|].
  apply add_div_1000_not_NaN; [|exact Hn].
  unfold time_value in Hnow. change (2 ^ 53) with 9007199254740992. lia.
Qed.

(** After a line of 400 digits the offset is infinite, and so is the time
    of the row of the next read; neither is [NaN]. *)
Lemma timestamps_are_numbers_witness :
  time_value 7000
  /\ serverTimeOffset
       (snd (run [Collect 20 (ex_env 20) ex_offset_huge]
               (new_BandwidthCollector ex_options loaded)))
     = S754_infinity false
  /\ exists row,
       deref
         (heap (snd (snd (_collectLog 7000 (ex_env 7000) ex_read_line
                            (run [Collect 20 (ex_env 20) ex_offset_huge]
                               (new_BandwidthCollector ex_options loaded))))))
         (_data (fst (run [Collect 20 (ex_env 20) ex_offset_huge]
                        (new_BandwidthCollector ex_options loaded))))
       = pending (run [Collect 20 (ex_env 20) ex_offset_huge]
                    (new_BandwidthCollector ex_options loaded)) ++ [row]
       /\ TableRow.time row = Some (S754_infinity false)
       /\ exists t, TableRow.time row = Some t /\ t <> NaN.
Proof.
  assert (time_value 7000) as Hnow by (unfold time_value; simpl; lia).
  split; [exact Hnow|]. split; [vm_compute; reflexivity|].
  eexists. split; [vm_compute; reflexivity|]. split; [vm_compute; reflexivity|].
  exact (proj2 (timestamps_are_numbers ex_options
                  [Collect 20 (ex_env 20) ex_offset_huge]
                  7000 (ex_env 7000) ex_read_line _)
           Hnow ltac:(vm_compute; reflexivity)).
Defined.

(** ** The name of the table *)

(** X18: the name of the table of a day is the prefix followed by the
    year, the month and the day in decimal without padding, so different
    days share a table: the 11th to 19th of January with the 1st to 9th
    of November, the 21st to 29th of January with the 1st to 9th of
    December. *)
Theorem tableName_is_shared_by_days o year k :
  1 <= k <= 9 ->
  tableName o {| getUTCFullYear := year; getUTCMonth := 0; getUTCDate := 10 + k |}
  = tableName o {| getUTCFullYear := year; getUTCMonth := 10; getUTCDate := k |}
  /\ tableName o {| getUTCFullYear := year; getUTCMonth := 0; getUTCDate := 20 + k |}
     = tableName o {| getUTCFullYear := year; getUTCMonth := 11; getUTCDate := k |}.
Proof.
  intros Hk. unfold tableName; simpl.
  assert (k = 1 \/ k = 2 \/ k = 3 \/ k = 4 \/ k = 5 \/ k = 6 \/ k = 7 \/ k = 8 \/ k = 9)
    as Hcases by lia.
  split; do 2 f_equal;
    destruct Hcases as [->|[->|[->|[->|[->|[->|[->|[->| ->]]]]]]]];
    vm_compute; reflexivity.
Qed.

Lemma tableName_is_shared_by_days_witness :
  1 <= 1 <= 9
  /\ tableName ex_options {| getUTCFullYear := 2016; getUTCMonth := 0; getUTCDate := 11 |}
     = js "raw2016111"
  /\ tableName ex_options {| getUTCFullYear := 2016; getUTCMonth := 0; getUTCDate := 11 |}
     = tableName ex_options {| getUTCFullYear := 2016; getUTCMonth := 10; getUTCDate := 1 |}.
Proof.
  assert (1 <= 1 <= 9) as H by lia.
  split; [exact H|]. split; [vm_compute; reflexivity|].
  exact (proj1 (tableName_is_shared_by_days ex_options 2016 1 H)).
Defined.

(** ** The exported function *)

Lemma run_options cs st : _options (fst (run cs st)) = _options (fst st).
Proof.
  pose (P := fun st0 : state => _options (fst st0) = _options (fst st)).
  assert (forall fe st0, P st0 -> P (snd (flush fe st0))) as Hflush.
  { intros fe st0 H. unfold P.
    destruct (flush_cases fe st0) as [[He ->]|[Hne ->]];
      by destruct st0 as [this rt]. }
  change (P (run cs st)). apply run_preserves; [| | |exact Hflush|done].
  - intros lines [this rt] H. exact H.
  - intros n [this rt] H. exact H.
  - intros fe row st0 H. rewrite pushRow_eq.
    destruct (Z.geb _ _); [apply Hflush|]; by destruct st0 as [this rt].
Qed.

Lemma module_exports_instance {J : Type} (JSON_parse : option str -> completion J)
    options rt g st :
  module_exports JSON_parse options rt = Normal (g, st) ->
  st = new_BandwidthCollector
         {| datasetId := Given.datasetId options;
            tablePrefix := or_str (Given.tablePrefix options) (js "raw");
            tag := Given.tag options;
            sizeFlushThreshold := or_num (Given.sizeFlushThreshold options) 100000;
            forcedFlushInterval := or_num (Given.forcedFlushInterval options) ms_1m |}
         rt.
Proof.
  unfold module_exports.
  destruct (truthy_opt _); [|destruct (JSON_parse _)]; intros H; by inversion H.
Qed.

(** X19: an instance made by the exported function with a threshold that
    is missing, zero or positive never holds, between calls, rows whose
    sizes add up to its threshold, which is the given one, or 100000 when
    it is missing or zero. *)
Theorem exported_instance_stays_below_threshold {J : Type}
    (JSON_parse : option str -> completion J) options rt g st cs :
  match Given.sizeFlushThreshold options with Some z => 0 <= z | None => True end ->
  module_exports JSON_parse options rt = Normal (g, st) ->
  let threshold := sizeFlushThreshold (_options (fst (run cs st))) in
  threshold = or_num (Given.sizeFlushThreshold options) 100000
  /\ 0 < threshold
  /\ sum_sizes (pending (run cs st)) < threshold.
Proof.
  intros Hz E. apply module_exports_instance in E as ->.
  set (o := {| datasetId := _ |}). cbv zeta.
  assert (0 < or_num (Given.sizeFlushThreshold options) 100000) as Hpos.
  { destruct (Given.sizeFlushThreshold options) as [[|z|z]|]; simpl; lia. }
  pose proof (new_BandwidthCollector_valid o rt) as Hv.
  destruct (run_below_threshold cs (new_BandwidthCollector o rt) Hv Hpos Hpos)
    as [Ho Hlt].
  destruct (size_inv_run cs (new_BandwidthCollector o rt)) as [_ Hs].
  { split; [exact Hv|]. unfold new_BandwidthCollector, pending, deref; simpl.
    by rewrite lookup_app_r, Nat.sub_diag. }
  rewrite Ho, <- Hs. done.
Qed.

Lemma exported_instance_stays_below_threshold_witness :
  exists g st,
    module_exports ex_JSON_parse ex_given loaded = Normal (g, st)
    /\ sizeFlushThreshold (_options (fst (run ex_calls st))) = 100000
    /\ sum_sizes (pending (run ex_calls st)) < 100000.
Proof.
  eexists _, _. split; [vm_compute; reflexivity|].
  pose proof (exported_instance_stays_below_threshold ex_JSON_parse ex_given loaded
                _ _ ex_calls ltac:(simpl; lia) eq_refl) as (H1 & _ & H3).
  split; [exact H1|]. rewrite H1 in H3. exact H3.
Defined.

(** X20: the exported function throws exactly when no key file name is
    given, or an empty one, and [JSON.parse] throws on the key; it then
    throws what [JSON.parse] threw.  With a key file name the key is not
    parsed: whatever [JSON.parse] does, the connection gets the file name
    and no credentials, and the instance is the same. *)
Theorem module_exports_throws_on_bad_key {J : Type}
    (JSON_parse : option str -> completion J) options rt :
  (forall e,
     module_exports JSON_parse options rt = Throw e
     <-> truthy_opt (Given.keyFilename options) = false
         /\ JSON_parse (Given.key options) = Throw e)
  /\ (truthy_opt (Given.keyFilename options) = true ->
      exists st,
        forall (J' : Type) (JSON_parse' : option str -> completion J'),
          module_exports JSON_parse' options rt
          = Normal ({| g_projectId := Given.projectId options;
                       g_keyFilename := Given.keyFilename options;
                       g_credentials := None |}, st)).
Proof.
  split.
  - intros e. unfold module_exports.
    destruct (truthy_opt _); [split; [done | by intros [? _]]|].
    destruct (JSON_parse _) as [credentials|e'].
    + split; [done | by intros [_ ?]].
    + split; [intros H; by inversion H | intros [_ H]; by inversion H].
  - intros Hk. eexists. intros J' JSON_parse'. unfold module_exports.
    rewrite Hk. reflexivity.
Qed.

Lemma module_exports_throws_on_bad_key_witness :
  truthy_opt (Given.keyFilename ex_given) = true
  /\ (exists st,
        module_exports ex_JSON_parse ex_given loaded
        = Normal ({| g_projectId := js "project";
                     g_keyFilename := Some (js "key.json");
                     g_credentials := None |}, st))
  /\ module_exports ex_JSON_parse (ex_given_key (js "{")) loaded
     = Throw (TypeError "Unexpected token").
Proof.
  split; [reflexivity|]. split.
  - destruct (proj2 (module_exports_throws_on_bad_key ex_JSON_parse ex_given loaded)
                eq_refl) as [st H].
    exists st. exact (H unit ex_JSON_parse).
  - apply (proj1 (module_exports_throws_on_bad_key ex_JSON_parse
                    (ex_given_key (js "{")) loaded)).
    split; reflexivity.
Defined.

(** X21: a forced-flush interval of zero cannot be configured.  An
    instance made by the exported function with the interval missing or
    zero leaves everything as it is on a tick of the timer that comes less
    than a minute after the last flush, and flushes on a later one. *)
Theorem exported_instance_default_interval {J : Type}
    (JSON_parse : option str -> completion J) options rt g st0 cs now fe :
  Given.forcedFlushInterval options = None
  \/ Given.forcedFlushInterval options = Some 0 ->
  module_exports JSON_parse options rt = Normal (g, st0) ->
  let st := run cs st0 in
  (now - lastFlushTimestamp (snd st) < 60000 -> flushIfLate now fe st = (Normal tt, st))
  /\ (60000 <= now - lastFlushTimestamp (snd st) ->
      flushIfLate now fe st = try_catch (flush fe) unexpected st).
Proof.
  intros Hi E st. apply module_exports_instance in E.
  assert (forcedFlushInterval (_options (fst st)) = 60000) as Ho.
  { unfold st. rewrite run_options, E.
    unfold new_BandwidthCollector; simpl.
    by destruct Hi as [-> | ->]. }
  rewrite flushIfLate_eq, Ho. split; intros H.
  - by apply Z.ltb_lt in H as ->.
  - by apply Z.ltb_ge in H as ->.
Qed.

Lemma exported_instance_default_interval_witness :
  exists g st0,
    module_exports ex_JSON_parse ex_given loaded = Normal (g, st0)
    /\ 59999 - lastFlushTimestamp (snd (run [] st0)) < 60000
    /\ flushIfLate 59999 (ex_env 59999) (run [] st0) = (Normal tt, run [] st0).
Proof.
  eexists _, _. split; [vm_compute; reflexivity|].
  assert (59999 - 0 < 60000) as Hlt by lia.
  split; [exact Hlt|].
  exact (proj1 (exported_instance_default_interval ex_JSON_parse ex_given loaded
                  _ _ [] 59999 (ex_env 59999) (or_introl eq_refl) eq_refl) Hlt).
Defined.
